(** * Referral backend: a shallow embedding of [server.js]

    The server is a set of Express handlers, each a short sequence of SQL
    statements over three tables ([users], [deposits], [referral_earnings]).
    The embedding keeps that shape:

    - the database is a record of three row lists plus the serial counters;
      a [SELECT ... WHERE] is a [filter], [rows[0]] is the head of the
      result, an [UPDATE ... WHERE] is a [map] that rewrites the selected
      rows, an [INSERT] appends a row;
    - a handler is a function from the database, the statement time [now]
      and the request fields to a reply and the next database;
    - JavaScript strings are ASCII [string]s;
    - monetary values are exact rationals ([Q]): PostgreSQL's [numeric]
      arithmetic is exact, and the binary64 rounding of the JavaScript side
      is not part of the model.  A [numeric] value read back through
      [parseFloat] is therefore the value itself. *)

From Stdlib Require Import List Bool Arith ZArith QArith Lia Lqa.
From Stdlib Require Import Ascii String.
Import ListNotations.

Local Open Scope string_scope.
Local Open Scope Z_scope.

(** ** JavaScript string and number primitives used by the server *)

Module Js.

(** [c] is one of the ASCII white space and line terminator characters that
    [String.prototype.trim] and [parseInt] skip. *)
Definition is_space (c : ascii) : bool :=
  let n := nat_of_ascii c in
  ((9 <=? n) && (n <=? 13))%nat || (n =? 32)%nat.

(** The characters that the regular expression atom [.] refuses. *)
Definition is_line_terminator (c : ascii) : bool :=
  let n := nat_of_ascii c in
  (n =? 10)%nat || (n =? 13)%nat.

Definition lower_char (c : ascii) : ascii :=
  let n := nat_of_ascii c in
  if ((65 <=? n) && (n <=? 90))%nat then ascii_of_nat (n + 32) else c.

(** [String.prototype.toLowerCase] *)
Fixpoint toLowerCase (s : string) : string :=
  match s with
  | EmptyString => EmptyString
  | String c s' => String (lower_char c) (toLowerCase s')
  end.

Fixpoint trimStart (s : string) : string :=
  match s with
  | EmptyString => EmptyString
  | String c s' => if is_space c then trimStart s' else s
  end.

(** Drops the white space at the end: a character is kept when it is not
    white space or when something is kept after it. *)
Fixpoint trimEnd (s : string) : string :=
  match s with
  | EmptyString => EmptyString
  | String c s' =>
      match trimEnd s' with
      | EmptyString => if is_space c then EmptyString else String c EmptyString
      | t => String c t
      end
  end.

(** [String.prototype.trim] *)
Definition trim (s : string) : string := trimEnd (trimStart s).

(** [s.substring(0, n)] *)
Fixpoint substring0 (n : nat) (s : string) : string :=
  match n, s with
  | S n', String c s' => String c (substring0 n' s')
  | _, _ => EmptyString
  end.

(** A JavaScript value is falsy as a string exactly when it is empty. *)
Definition truthy_string (s : string) : bool :=
  match s with EmptyString => false | _ => true end.

(** *** Decimal rendering of an integer: [Number.prototype.toString] *)

Definition digit_char (d : Z) : ascii := ascii_of_nat (48 + Z.to_nat d).

Fixpoint digits (fuel : nat) (n : Z) (acc : string) : string :=
  match fuel with
  | O => acc
  | S fuel' =>
      let acc' := String (digit_char (n mod 10)) acc in
      if n <? 10 then acc' else digits fuel' (n / 10) acc'
  end.

Definition toString (n : Z) : string :=
  if n <? 0
  then String "-" (digits (S (Z.to_nat (Z.log2 (- n)))) (- n) EmptyString)
  else digits (S (Z.to_nat (Z.log2 n))) n EmptyString.

Definition is_digit (c : ascii) : bool :=
  let n := nat_of_ascii c in ((48 <=? n) && (n <=? 57))%nat.

Fixpoint all_digits (s : string) : bool :=
  match s with
  | EmptyString => true
  | String c s' => is_digit c && all_digits s'
  end.

(** *** [parseInt(s, 16)]; [None] stands for [NaN] *)

Definition hex_value (c : ascii) : option Z :=
  let n := nat_of_ascii c in
  if ((48 <=? n) && (n <=? 57))%nat then Some (Z.of_nat n - 48)
  else if ((97 <=? n) && (n <=? 102))%nat then Some (Z.of_nat n - 87)
  else if ((65 <=? n) && (n <=? 70))%nat then Some (Z.of_nat n - 55)
  else None.

(** Reads the longest prefix of hexadecimal digits, [acc] being the value
    of the digits read so far. *)
Fixpoint hex_prefix (s : string) (acc : Z) : Z :=
  match s with
  | EmptyString => acc
  | String c s' =>
      match hex_value c with
      | Some d => hex_prefix s' (16 * acc + d)
      | None => acc
      end
  end.

Definition hex_digits (s : string) : option Z :=
  match s with
  | EmptyString => None
  | String c _ =>
      match hex_value c with
      | Some _ => Some (hex_prefix s 0)
      | None => None
      end
  end.

Definition strip_0x (s : string) : string :=
  match s with
  | String "0" (String "x" s') => s'
  | String "0" (String "X" s') => s'
  | _ => s
  end.

Definition parseInt16 (s : string) : option Z :=
  match trimStart s with
  | String "-" s' => option_map Z.opp (hex_digits (strip_0x s'))
  | String "+" s' => hex_digits (strip_0x s')
  | s' => hex_digits (strip_0x s')
  end.

(** *** Numbers and the values a database driver hands to the handlers

    A finite number is an exact rational: [NaN] and the two infinities are
    kept because [parseFloat] can return them and [||] tests for [NaN]. *)

Inductive number : Type :=
  | NaN
  | Infinity (negative : bool)
  | Fin (q : Q).

Inductive value : Type :=
  | Null
  | Undefined
  | Number (n : number)
  | Str (s : string).

(** [n || 0]: [NaN] and zero are falsy. *)
Definition or_zero (n : number) : number :=
  match n with
  | NaN => Fin 0
  | Infinity b => Infinity b
  | Fin q => if Qeq_bool q 0 then Fin 0 else Fin q
  end.

Definition is_NaN (n : number) : bool :=
  match n with NaN => true | _ => false end.

(** Reads the longest prefix of decimal digits after the digits whose value
    is [acc]; returns the value, the number of digits read and the rest. *)
Fixpoint read_digits (s : string) (acc : Z) (count : nat) : Z * nat * string :=
  match s with
  | String c s' =>
      if is_digit c
      then read_digits s' (10 * acc + (Z.of_nat (nat_of_ascii c) - 48)) (S count)
      else (acc, count, s)
  | EmptyString => (acc, count, s)
  end.

Definition read_sign (s : string) : bool * string :=
  match s with
  | String "-" s' => (true, s')
  | String "+" s' => (false, s')
  | _ => (false, s)
  end.

(** The value of an exponent part at the head of [s], 0 when there is none
    or when it is cut short (the literal then ends before it). *)
Definition read_exponent (s : string) : Z :=
  match s with
  | String c s' =>
      if (Ascii.eqb c "e" || Ascii.eqb c "E")%bool
      then let '(neg, s1) := read_sign s' in
           let '(v, n, _) := read_digits s1 0 0 in
           match n with
           | O => 0
           | _ => if neg then - v else v
           end
      else 0
  | EmptyString => 0
  end.

(** [m] times ten to the [k] *)
Definition scale10 (m k : Z) : Q :=
  if 0 <=? k then inject_Z (m * 10 ^ k)
  else Qmake m (Z.to_pos (10 ^ (- k))).

(** [parseFloat]: the longest prefix of the trimmed string that is a decimal
    literal, [NaN] when there is none. *)
Definition parseFloat (s : string) : number :=
  let '(neg, s1) := read_sign (trimStart s) in
  if String.prefix "Infinity" s1 then Infinity neg
  else
    let '(ip, ni, s2) := read_digits s1 0 0 in
    let '(m, nf, s3) :=
      match s2 with
      | String "." r => read_digits r ip 0
      | _ => (ip, O, s2)
      end in
    match (ni + nf)%nat with
    | O => NaN
    | _ => Fin (scale10 (if neg then - m else m)
                        (read_exponent s3 - Z.of_nat nf))
    end.

(** [s.replace(/[$,]/g, '')] *)
Fixpoint strip_dollar_comma (s : string) : string :=
  match s with
  | EmptyString => EmptyString
  | String c s' =>
      if (Ascii.eqb c "$" || Ascii.eqb c ",")%bool
      then strip_dollar_comma s'
      else String c (strip_dollar_comma s')
  end.

End Js.

(** ** The MD5 digest of [crypto.createHash('md5')] (RFC 1321) *)

Module MD5.

Definition w32 (x : Z) : Z := x mod 2 ^ 32.

Definition rotl (x c : Z) : Z :=
  w32 (Z.lor (Z.shiftl x c) (Z.shiftr x (32 - c))).

Definition not32 (x : Z) : Z := Z.lxor x 0xffffffff.

Definition K : list Z :=
  [ 0xd76aa478; 0xe8c7b756; 0x242070db; 0xc1bdceee;
    0xf57c0faf; 0x4787c62a; 0xa8304613; 0xfd469501;
    0x698098d8; 0x8b44f7af; 0xffff5bb1; 0x895cd7be;
    0x6b901122; 0xfd987193; 0xa679438e; 0x49b40821;
    0xf61e2562; 0xc040b340; 0x265e5a51; 0xe9b6c7aa;
    0xd62f105d; 0x02441453; 0xd8a1e681; 0xe7d3fbc8;
    0x21e1cde6; 0xc33707d6; 0xf4d50d87; 0x455a14ed;
    0xa9e3e905; 0xfcefa3f8; 0x676f02d9; 0x8d2a4c8a;
    0xfffa3942; 0x8771f681; 0x6d9d6122; 0xfde5380c;
    0xa4beea44; 0x4bdecfa9; 0xf6bb4b60; 0xbebfbc70;
    0x289b7ec6; 0xeaa127fa; 0xd4ef3085; 0x04881d05;
    0xd9d4d039; 0xe6db99e5; 0x1fa27cf8; 0xc4ac5665;
    0xf4292244; 0x432aff97; 0xab9423a7; 0xfc93a039;
    0x655b59c3; 0x8f0ccc92; 0xffeff47d; 0x85845dd1;
    0x6fa87e4f; 0xfe2ce6e0; 0xa3014314; 0x4e0811a1;
    0xf7537e82; 0xbd3af235; 0x2ad7d2bb; 0xeb86d391 ].

Definition shifts : list Z :=
  [ 7; 12; 17; 22; 7; 12; 17; 22; 7; 12; 17; 22; 7; 12; 17; 22;
    5; 9; 14; 20; 5; 9; 14; 20; 5; 9; 14; 20; 5; 9; 14; 20;
    4; 11; 16; 23; 4; 11; 16; 23; 4; 11; 16; 23; 4; 11; 16; 23;
    6; 10; 15; 21; 6; 10; 15; 21; 6; 10; 15; 21; 6; 10; 15; 21 ].

Record state := mkState { sa : Z; sb : Z; sc : Z; sd : Z }.

Definition init : state :=
  mkState 0x67452301 0xefcdab89 0x98badcfe 0x10325476.

(** One of the 64 operations of a block; [m] holds its 16 words. *)
Definition round (m : list Z) (st : state) (i : nat) : state :=
  let '(mkState a b c d) := st in
  let zi := Z.of_nat i in
  let '(f, g) :=
    if (i <? 16)%nat then (Z.lor (Z.land b c) (Z.land (not32 b) d), zi)
    else if (i <? 32)%nat
      then (Z.lor (Z.land d b) (Z.land (not32 d) c), (5 * zi + 1) mod 16)
    else if (i <? 48)%nat then (Z.lxor b (Z.lxor c d), (3 * zi + 5) mod 16)
    else (Z.lxor c (Z.lor b (not32 d)), (7 * zi) mod 16) in
  let f' := w32 (f + a + nth i K 0 + nth (Z.to_nat g) m 0) in
  mkState d (w32 (b + rotl f' (nth i shifts 0))) b c.

(** Little-endian word of four bytes. *)
Definition word_of_bytes (l : list Z) : Z :=
  nth 0 l 0 + 256 * nth 1 l 0 + 65536 * nth 2 l 0 + 16777216 * nth 3 l 0.

Fixpoint chunks (fuel size : nat) (l : list Z) : list (list Z) :=
  match fuel, l with
  | S fuel', _ :: _ => firstn size l :: chunks fuel' size (skipn size l)
  | _, _ => []
  end.

Definition process_block (st : state) (block : list Z) : state :=
  let m := map word_of_bytes (chunks 16 4 block) in
  let st' := fold_left (round m) (seq 0 64) st in
  mkState (w32 (sa st + sa st')) (w32 (sb st + sb st'))
          (w32 (sc st + sc st')) (w32 (sd st + sd st')).

Definition le_bytes (n : nat) (x : Z) : list Z :=
  map (fun k => Z.shiftr x (8 * Z.of_nat k) mod 256) (seq 0 n).

(** The message followed by the bit 1, zeros up to 56 modulo 64, and the bit
    length on 8 bytes. *)
Definition pad (msg : list Z) : list Z :=
  let len := Z.of_nat (List.length msg) in
  let zeros := Z.to_nat ((55 - len) mod 64) in
  msg ++ [128] ++ repeat 0 zeros ++ le_bytes 8 ((8 * len) mod 2 ^ 64).

Definition digest_state (msg : list Z) : state :=
  let p := pad msg in
  fold_left process_block (chunks (List.length p) 64 p) init.

Definition hex_char (d : Z) : ascii :=
  if d <? 10 then ascii_of_nat (48 + Z.to_nat d)
  else ascii_of_nat (87 + Z.to_nat d).

Definition hi (b : Z) : Z := b / 16 mod 16.
Definition lo (b : Z) : Z := b mod 16.

Definition hex_byte (b : Z) (rest : string) : string :=
  String (hex_char (hi b)) (String (hex_char (lo b)) rest).

Definition hex_word (w : Z) (rest : string) : string :=
  fold_right hex_byte rest (le_bytes 4 w).

Definition bytes_of_string (s : string) : list Z :=
  map (fun c => Z.of_nat (nat_of_ascii c)) (list_ascii_of_string s).

(** [crypto.createHash('md5').update(s).digest('hex')] *)
Definition hex (s : string) : string :=
  let st := digest_state (bytes_of_string s) in
  hex_word (sa st) (hex_word (sb st) (hex_word (sc st) (hex_word (sd st) EmptyString))).

End MD5.

(** ** Referral code generation *)

Definition generateReferralCode (email : string) : string :=
  let hash := MD5.hex (Js.trim (Js.toLowerCase email)) in
  match Js.parseInt16 (Js.substring0 8 hash) with
  | Some numericHash => Js.toString (numericHash mod 900000 + 100000)
  | None => "NaN"
  end.

(** ** Email masking

    The masking pattern of the handlers has three groups: two characters,
    a greedy run of characters, then an at sign with a greedy run of
    characters; the replacement is group 1, three stars and group 3.  It is
    matched by backtracking as the regular expression engine does.  A match
    is the text of group 1, of group 3 and what follows the match. *)

Module Mask.

Definition dot (c : ascii) : bool := negb (Js.is_line_terminator c).

Fixpoint all_chars (p : ascii -> bool) (s : string) : bool :=
  match s with
  | EmptyString => true
  | String c s' => p c && all_chars p s'
  end.

Definition not_at (c : ascii) : bool := negb (Ascii.eqb c "@").

(** The greedy run at the end of the pattern: every character up to the
    next line terminator, with nothing to give back. *)
Fixpoint dot_star (s : string) : string * string :=
  match s with
  | String c s' =>
      if dot c
      then let '(g, rest) := dot_star s' in (String c g, rest)
      else (EmptyString, s)
  | EmptyString => (EmptyString, EmptyString)
  end.

(** Group 3 at the head of [s] *)
Definition group3 (s : string) : option (string * string) :=
  match s with
  | String "@" s' => let '(g, rest) := dot_star s' in Some (String "@" g, rest)
  | _ => None
  end.

(** Groups 2 and 3 at the head of [s]: the greedy star first takes one
    more character, and gives it back when the rest then fails. *)
Fixpoint star_group3 (s : string) : option (string * string) :=
  match s with
  | String c s' =>
      if dot c
      then match star_group3 s' with
           | Some r => Some r
           | None => group3 s
           end
      else group3 s
  | EmptyString => group3 s
  end.

(** The whole pattern at the head of [s]. *)
Definition match_here (s : string) : option (string * string * string) :=
  match s with
  | String c1 (String c2 s') =>
      if (dot c1 && dot c2)%bool
      then match star_group3 s' with
           | Some (g3, rest) => Some (String c1 (String c2 EmptyString), g3, rest)
           | None => None
           end
      else None
  | _ => None
  end.

(** [String.prototype.replace] with the masking pattern, which is not
    global: the leftmost match is replaced, a string without a match is
    returned as it is. *)
Fixpoint replace (s : string) : string :=
  match match_here s with
  | Some (g1, g3, rest) => g1 ++ "***" ++ g3 ++ rest
  | None =>
      match s with
      | String c s' => String c (replace s')
      | EmptyString => EmptyString
      end
  end.

End Mask.

(** ** Money as the handlers read it *)

(** The value the driver returns for a monetary column: the decimal text of
    a [numeric] is identified with the number it denotes. *)
Definition column (q : Q) : Js.value := Js.Number (Js.Fin q).

Definition parseMoney (v : Js.value) : Js.number :=
  match v with
  | Js.Null | Js.Undefined => Js.Fin 0
  | Js.Number n => n
  | Js.Str s => Js.or_zero (Js.parseFloat (Js.strip_dollar_comma s))
  end.

(** ** Tables *)

Inductive status : Type := pending | claimed.

Definition status_eqb (a b : status) : bool :=
  match a, b with
  | pending, pending | claimed, claimed => true
  | _, _ => false
  end.

Module User.
Record t : Type := mk {
  id : nat;
  email : string;
  referral_code : string;
  referred_by_code : option string;
  balance : Q;
  created_at : nat
}.
End User.

Module Deposit.
Record t : Type := mk {
  id : nat;
  user_id : nat;
  amount : Q;
  status : string;
  created_at : nat
}.
End Deposit.

Module Earning.
Record t : Type := mk {
  id : nat;
  referrer_id : nat;
  referred_user_id : nat;
  deposit_id : nat;
  level : nat;
  percentage : Q;
  amount : Q;
  status : status;
  created_at : nat;
  claimed_at : option nat
}.
End Earning.

(** The three tables in insertion order and the next value of each serial
    [id]. *)
Record db : Type := mkDb {
  users : list User.t;
  deposits : list Deposit.t;
  referral_earnings : list Earning.t;
  users_seq : nat;
  deposits_seq : nat;
  earnings_seq : nat
}.

Definition empty_db : db := mkDb [] [] [] 1 1 1.

(** [{success: true, data}] or [res.status(code).json({success: false, error})] *)
Inductive reply (A : Type) : Type :=
  | Success (data : A)
  | Failure (code : nat) (error : string).
Arguments Success {A} data.
Arguments Failure {A} code error.

(** [!x] fails for a request field that is present and not empty. *)
Definition required (x : option string) : option string :=
  match x with
  | Some s => if Js.truthy_string s then Some s else None
  | None => None
  end.

Definition REFERRAL_LEVELS (level : nat) : option Q :=
  match level with
  | 1%nat => Some 16%Q
  | 2%nat => Some 3%Q
  | 3%nat => Some 2%Q
  | _ => None
  end.

(** ** Queries and helpers of [server.js] *)

Definition normalize (email : string) : string := Js.trim (Js.toLowerCase email).

Definition findUserByEmail (d : db) (email : string) : option User.t :=
  hd_error (filter (fun u => String.eqb (User.email u) (normalize email)) (users d)).

Definition findUserByReferralCode (d : db) (code : string) : option User.t :=
  hd_error (filter (fun u => String.eqb (User.referral_code u) code) (users d)).

Definition createUser (d : db) (now : nat) (email : string)
    (referredByCode : option string) : User.t * db :=
  let referralCode := generateReferralCode email in
  let row := User.mk (users_seq d) (normalize email) referralCode
                     referredByCode 0%Q now in
  (row, mkDb (users d ++ [row]) (deposits d) (referral_earnings d)
             (S (users_seq d)) (deposits_seq d) (earnings_seq d)).

(** [u1.referred_by_code = u2.referral_code]; a [NULL] code equals nothing. *)
Definition refers_to (code : option string) (u2 : User.t) : bool :=
  match code with
  | Some c => String.eqb c (User.referral_code u2)
  | None => false
  end.

(** [SELECT u2.* FROM users u1 JOIN users u2
     ON u1.referred_by_code = u2.referral_code WHERE u1.id = $1] *)
Definition referrer_rows (d : db) (userId : nat) : list User.t :=
  flat_map (fun u1 => filter (refers_to (User.referred_by_code u1)) (users d))
           (filter (fun u1 => Nat.eqb (User.id u1) userId) (users d)).

(** The loop of [getReferrerChain], by recursion on [maxLevel - level]: the
    test [level < maxLevel] holds when [remaining] is a successor. *)
Fixpoint chain_loop (d : db) (remaining : nat) (currentUserId level : nat)
    : list (User.t * nat) :=
  match remaining with
  | O => []
  | S remaining' =>
      match referrer_rows d currentUserId with
      | [] => []
      | row :: _ =>
          (row, S level) :: chain_loop d remaining' (User.id row) (S level)
      end
  end.

Definition getReferrerChain (d : db) (userId maxLevel : nat)
    : list (User.t * nat) :=
  chain_loop d maxLevel userId 0.

(** The user id the walk stands at after [i] entries of [chain]. *)
Definition walked_from (userId : nat) (chain : list (User.t * nat)) (i : nat) : nat :=
  last (map (fun entry => User.id (fst entry)) (firstn i chain)) userId.

(** [SELECT id, email, referral_code, created_at FROM users
     WHERE referred_by_code = $1]; the rows keep all their columns here. *)
Definition referred_by (d : db) (code : string) : list User.t :=
  filter (fun u =>
            match User.referred_by_code u with
            | Some c => String.eqb c code
            | None => false
            end) (users d).

(** The direct referrals of a team member: the query of the two loops. *)
Definition referrals_of (d : db) (m : User.t) : list User.t :=
  referred_by d (User.referral_code m).

Record team : Type := mkTeam {
  level1 : list User.t;
  level2 : list User.t;
  level3 : list User.t
}.

(** The body of [for (const l2User of level2.rows)] *)
Definition team_l2_step (d : db) (tm : team) (l2User : User.t) : team :=
  mkTeam (level1 tm) (level2 tm)
         (level3 tm ++ referred_by d (User.referral_code l2User)).

(** The body of [for (const l1User of level1.rows)] *)
Definition team_l1_step (d : db) (tm : team) (l1User : User.t) : team :=
  let level2_rows := referred_by d (User.referral_code l1User) in
  fold_left (team_l2_step d) level2_rows
            (mkTeam (level1 tm) (level2 tm ++ level2_rows) (level3 tm)).

Definition getTeamByLevel (d : db) (userId : nat) : team :=
  let tm := mkTeam [] [] [] in
  match filter (fun u => Nat.eqb (User.id u) userId) (users d) with
  | [] => tm
  | user :: _ =>
      let userCode := User.referral_code user in
      let level1_rows := referred_by d userCode in
      fold_left (team_l1_step d) level1_rows
                (mkTeam level1_rows (level2 tm) (level3 tm))
  end.

Definition insert_earning (d : db) (now referrerId userId depositId level : nat)
    (percentage amount : Q) : db :=
  let row := Earning.mk (earnings_seq d) referrerId userId depositId level
                        percentage amount pending now None in
  mkDb (users d) (deposits d) (referral_earnings d ++ [row])
       (users_seq d) (deposits_seq d) (S (earnings_seq d)).

(** The loop of [calculateReferralEarnings].  [None] is the one case left
    out of the model: a level without an entry in [REFERRAL_LEVELS]. *)
Fixpoint accrue (d : db) (now depositId userId : nat) (amount : Q)
    (chain : list (User.t * nat)) : option db :=
  match chain with
  | [] => Some d
  | (referrer, level) :: chain' =>
      match REFERRAL_LEVELS level with
      | Some percentage =>
          let earningAmount := ((amount * percentage) / 100)%Q in
          accrue (insert_earning d now (User.id referrer) userId depositId
                                 level percentage earningAmount)
                 now depositId userId amount chain'
      | None => None
      end
  end.

Definition calculateReferralEarnings (d : db) (now depositId userId : nat)
    (amount : Q) : option db :=
  let chain := getReferrerChain d userId 3 in
  accrue d now depositId userId amount chain.

(** The tier table as the specification gives it: 16, 3 and 2 percent. *)
Definition spec_rate (level : nat) : Q :=
  match level with
  | 1%nat => 16
  | 2%nat => 3
  | 3%nat => 2
  | _ => 0
  end.

(** The rows the specification asks of an accrual: one pending row per
    chain entry, in chain order, numbered from [next_id]. *)
Fixpoint spec_earnings (now depositId userId : nat) (amount : Q) (next_id : nat)
    (chain : list (User.t * nat)) : list Earning.t :=
  match chain with
  | [] => []
  | (referrer, level) :: chain' =>
      Earning.mk next_id (User.id referrer) userId depositId level
                 (spec_rate level) (amount * spec_rate level / 100) pending now None
      :: spec_earnings now depositId userId amount (S next_id) chain'
  end.

(** [COALESCE(SUM(amount::numeric), 0)] over the selected rows *)
Definition sum_amounts (rows : list Earning.t) : Q :=
  fold_right (fun e acc => (Earning.amount e + acc)%Q) 0%Q rows.

(** [WHERE referrer_id = $1 AND status = $2] *)
Definition owed (referrerId : nat) (st : status) (e : Earning.t) : bool :=
  Nat.eqb (Earning.referrer_id e) referrerId && status_eqb (Earning.status e) st.

Definition status_total (d : db) (referrerId : nat) (st : status) : Q :=
  sum_amounts (filter (owed referrerId st) (referral_earnings d)).

(** The total of the group of [level] in
    [SELECT level, COALESCE(SUM(amount::numeric), 0) ... GROUP BY level];
    a level without a group reads as 0 in the handler. *)
Definition level_total (d : db) (referrerId level : nat) : Q :=
  sum_amounts (filter (fun e => Nat.eqb (Earning.referrer_id e) referrerId
                                && Nat.eqb (Earning.level e) level)
                      (referral_earnings d)).

(** [UPDATE referral_earnings SET status = 'claimed', claimed_at = NOW()
     WHERE referrer_id = $1 AND status = 'pending'] *)
Definition claim_row (now referrerId : nat) (e : Earning.t) : Earning.t :=
  if owed referrerId pending e
  then Earning.mk (Earning.id e) (Earning.referrer_id e)
                  (Earning.referred_user_id e) (Earning.deposit_id e)
                  (Earning.level e) (Earning.percentage e) (Earning.amount e)
                  claimed (Earning.created_at e) (Some now)
  else e.

Definition claim_earnings (d : db) (now referrerId : nat) : db :=
  mkDb (users d) (deposits d)
       (map (claim_row now referrerId) (referral_earnings d))
       (users_seq d) (deposits_seq d) (earnings_seq d).

(** [UPDATE users SET balance = balance + $1 WHERE id = $2] *)
Definition credit_row (amount : Q) (userId : nat) (u : User.t) : User.t :=
  if Nat.eqb (User.id u) userId
  then User.mk (User.id u) (User.email u) (User.referral_code u)
               (User.referred_by_code u) (User.balance u + amount)%Q
               (User.created_at u)
  else u.

Definition credit_balance (d : db) (amount : Q) (userId : nat) : db :=
  mkDb (map (credit_row amount userId) (users d)) (deposits d)
       (referral_earnings d) (users_seq d) (deposits_seq d) (earnings_seq d).

(** [INSERT INTO deposits (user_id, amount, status, created_at)
     VALUES ($1, $2, 'completed', NOW()) RETURNING *] *)
Definition insert_deposit (d : db) (now userId : nat) (amount : Q)
    : Deposit.t * db :=
  let row := Deposit.mk (deposits_seq d) userId amount "completed" now in
  (row, mkDb (users d) (deposits d ++ [row]) (referral_earnings d)
             (users_seq d) (S (deposits_seq d)) (earnings_seq d)).

Definition referralLink (code : string) : string :=
  "https://luxearn.site/#/login?ref=" ++ code.

(** ** The handlers

    Each takes the database, the time of the request and the request fields
    (an absent field is [None]) and returns the reply with the database
    after the request.  The free text [message] of two replies is left
    out. *)

Record referral_data : Type := mkReferralData {
  rd_referralCode : string;
  rd_referralLink : string;
  rd_email : string
}.

Definition api_referral (d : db) (now : nat) (email : option string)
    : reply referral_data * db :=
  match required email with
  | None => (Failure 400 "Email is required", d)
  | Some email =>
      let '(user, d') :=
        match findUserByEmail d email with
        | Some user => (user, d)
        | None => createUser d now email None
        end in
      (Success (mkReferralData (User.referral_code user)
                               (referralLink (User.referral_code user))
                               (User.email user)), d')
  end.

Record register_data : Type := mkRegisterData {
  rg_id : nat;
  rg_email : string;
  rg_referralCode : string;
  rg_referralLink : string;
  rg_isNew : bool
}.

Definition register_reply (user : User.t) (isNew : bool) : register_data :=
  mkRegisterData (User.id user) (User.email user) (User.referral_code user)
                 (referralLink (User.referral_code user)) isNew.

Definition api_register (d : db) (now : nat) (email referralCode : option string)
    : reply register_data * db :=
  match required email with
  | None => (Failure 400 "Email is required", d)
  | Some email =>
      match findUserByEmail d email with
      | Some user => (Success (register_reply user false), d)
      | None =>
          let validReferralCode :=
            match required referralCode with
            | Some code =>
                match findUserByReferralCode d code with
                | Some _ => Some code
                | None => None
                end
            | None => None
            end in
          let '(user, d') := createUser d now email validReferralCode in
          (Success (register_reply user true), d')
      end
  end.

Record inviter_data : Type := mkInviterData {
  iv_maskedEmail : string;
  iv_referralCode : string;
  iv_joinedAt : nat
}.

Definition api_inviter (d : db) (referralCode : option string)
    : reply inviter_data * db :=
  match required referralCode with
  | None => (Failure 400 "Referral code is required", d)
  | Some code =>
      match findUserByReferralCode d code with
      | None => (Failure 404 "Inviter not found", d)
      | Some inviter =>
          let maskedEmail := Mask.replace (User.email inviter) in
          (Success (mkInviterData maskedEmail (User.referral_code inviter)
                                  (User.created_at inviter)), d)
      end
  end.

Record member : Type := mkMember { mb_email : string; mb_joinedAt : nat }.

Definition formatMember (m : User.t) : member :=
  mkMember (Mask.replace (User.email m)) (User.created_at m).

Record level_data : Type := mkLevelData {
  count : nat;
  percentage : option Q;
  members : list member
}.

Record team_data : Type := mkTeamData {
  td_level1 : level_data;
  td_level2 : level_data;
  td_level3 : level_data;
  totalTeam : nat
}.

Definition api_team (d : db) (email : option string) : reply team_data * db :=
  match required email with
  | None => (Failure 400 "Email is required", d)
  | Some email =>
      match findUserByEmail d email with
      | None => (Failure 404 "User not found", d)
      | Some user =>
          let tm := getTeamByLevel d (User.id user) in
          (Success
             (mkTeamData
                (mkLevelData (List.length (level1 tm)) (REFERRAL_LEVELS 1)
                             (map formatMember (level1 tm)))
                (mkLevelData (List.length (level2 tm)) (REFERRAL_LEVELS 2)
                             (map formatMember (level2 tm)))
                (mkLevelData (List.length (level3 tm)) (REFERRAL_LEVELS 3)
                             (map formatMember (level3 tm)))
                (List.length (level1 tm) + List.length (level2 tm)
                 + List.length (level3 tm))%nat), d)
      end
  end.

Record balance_data : Type := mkBalanceData {
  pendingBalance : Q;
  claimedBalance : Q;
  totalBalance : Js.number;
  breakdown1 : Q;
  breakdown2 : Q;
  breakdown3 : Q
}.

Definition api_balance (d : db) (email : option string)
    : reply balance_data * db :=
  match required email with
  | None => (Failure 400 "Email is required", d)
  | Some email =>
      match findUserByEmail d email with
      | None => (Failure 404 "User not found", d)
      | Some user =>
          (Success
             (mkBalanceData
                (status_total d (User.id user) pending)
                (status_total d (User.id user) claimed)
                (parseMoney (column (User.balance user)))
                (level_total d (User.id user) 1)
                (level_total d (User.id user) 2)
                (level_total d (User.id user) 3)), d)
      end
  end.

Record claim_data : Type := mkClaimData {
  claimedAmount : Q;
  newBalance : Js.number
}.

Definition api_claim (d : db) (now : nat) (email : option string)
    : reply claim_data * db :=
  match required email with
  | None => (Failure 400 "Email is required", d)
  | Some email =>
      match findUserByEmail d email with
      | None => (Failure 404 "User not found", d)
      | Some user =>
          let pendingAmount := status_total d (User.id user) pending in
          if Qle_bool pendingAmount 0
          then (Failure 400 "No pending rewards to claim", d)
          else
            let d1 := claim_earnings d now (User.id user) in
            let d2 := credit_balance d1 pendingAmount (User.id user) in
            match findUserByEmail d2 email with
            | Some updatedUser =>
                (Success (mkClaimData pendingAmount
                            (parseMoney (column (User.balance updatedUser)))),
                 d2)
            | None => (Failure 500 "Server error", d2)
            end
      end
  end.

Record deposit_data : Type := mkDepositData {
  depositId : nat;
  dd_amount : Q
}.

(** [!amount] for an amount that is absent or a number *)
Definition required_amount (amount : option Q) : option Q :=
  match amount with
  | Some a => if Qeq_bool a 0 then None else Some a
  | None => None
  end.

Definition api_deposit (d : db) (now : nat) (email : option string)
    (amount : option Q) : reply deposit_data * db :=
  match required email, required_amount amount with
  | Some email, Some amount =>
      match findUserByEmail d email with
      | None => (Failure 404 "User not found", d)
      | Some user =>
          let '(deposit, d1) := insert_deposit d now (User.id user) amount in
          match calculateReferralEarnings d1 now (Deposit.id deposit)
                                          (User.id user) amount with
          | Some d2 => (Success (mkDepositData (Deposit.id deposit) amount), d2)
          | None => (Failure 500 "Server error", d1)
          end
      end
  | _, _ => (Failure 400 "Email and amount are required", d)
  end.

Record history_entry : Type := mkHistoryEntry {
  he_level : nat;
  he_percentage : Q;
  he_amount : Js.number;
  he_status : status;
  he_referredEmail : string;
  he_createdAt : nat;
  he_claimedAt : option nat
}.

(** [ORDER BY re.created_at DESC]: insertion of a joined row before the
    first older one. *)
Fixpoint insert_newest (r : Earning.t * string) (l : list (Earning.t * string))
    : list (Earning.t * string) :=
  match l with
  | [] => [r]
  | x :: l' =>
      if (Earning.created_at (fst x) <? Earning.created_at (fst r))%nat
      then r :: l
      else x :: insert_newest r l'
  end.

(** [SELECT re.*, u.email as referred_email FROM referral_earnings re
     JOIN users u ON re.referred_user_id = u.id WHERE re.referrer_id = $1
     ORDER BY re.created_at DESC LIMIT 50] *)
Definition history_rows (d : db) (referrerId : nat) : list (Earning.t * string) :=
  let joined :=
    flat_map (fun re =>
                map (fun u => (re, User.email u))
                    (filter (fun u => Nat.eqb (Earning.referred_user_id re) (User.id u))
                            (users d)))
             (filter (fun re => Nat.eqb (Earning.referrer_id re) referrerId)
                     (referral_earnings d)) in
  firstn 50 (fold_right insert_newest [] joined).

Definition api_earnings_history (d : db) (email : option string)
    : reply (list history_entry) * db :=
  match required email with
  | None => (Failure 400 "Email is required", d)
  | Some email =>
      match findUserByEmail d email with
      | None => (Failure 404 "User not found", d)
      | Some user =>
          (Success
             (map (fun r =>
                     let e := fst r in
                     mkHistoryEntry (Earning.level e) (Earning.percentage e)
                       (parseMoney (column (Earning.amount e)))
                       (Earning.status e) (Mask.replace (snd r))
                       (Earning.created_at e) (Earning.claimed_at e))
                  (history_rows d (User.id user))), d)
      end
  end.

(** ** The server as a transition system *)

Inductive request : Type :=
  | GetReferral (email : option string)
  | PostRegister (email referralCode : option string)
  | GetInviter (referralCode : option string)
  | GetTeam (email : option string)
  | GetBalance (email : option string)
  | PostClaim (email : option string)
  | PostDeposit (email : option string) (amount : option Q)
  | GetEarningsHistory (email : option string)
  | GetHealth.

(** The database after a request. *)
Definition handle (d : db) (now : nat) (r : request) : db :=
  match r with
  | GetReferral email => snd (api_referral d now email)
  | PostRegister email referralCode => snd (api_register d now email referralCode)
  | GetInviter referralCode => snd (api_inviter d referralCode)
  | GetTeam email => snd (api_team d email)
  | GetBalance email => snd (api_balance d email)
  | PostClaim email => snd (api_claim d now email)
  | PostDeposit email amount => snd (api_deposit d now email amount)
  | GetEarningsHistory email => snd (api_earnings_history d email)
  | GetHealth => d
  end.

(** What a request can do to the [users] table: nothing, one more row, or
    the balance update of a claim. *)
Inductive users_step (d : db) (r : request) (d' : db) : Prop :=
  | users_same : users d' = users d -> users_step d r d'
  | users_created (row : User.t) :
      users d' = (users d ++ [row])%list -> users_step d r d'
  | users_credited (amount : Q) (userId : nat) (email : option string) :
      r = PostClaim email -> (0 < amount)%Q ->
      users d' = map (credit_row amount userId) (users d) -> users_step d r d'.

(** ** A sample run: A, then B under A's code, then C under B's code *)

Module Sample.

Definition codeA : string := Eval vm_compute in generateReferralCode "a@example.com".
Definition codeB : string := Eval vm_compute in generateReferralCode "b@example.com".

Definition db1 : db := Eval vm_compute in handle empty_db 10 (PostRegister (Some "a@example.com") None).
Definition db2 : db := Eval vm_compute in handle db1 20 (PostRegister (Some "b@example.com") (Some codeA)).
Definition db3 : db := Eval vm_compute in handle db2 30 (PostRegister (Some "c@example.com") (Some codeB)).
Definition db4 : db := Eval vm_compute in handle db3 40 (PostDeposit (Some "c@example.com") (Some 100%Q)).

(** A team: R with two direct referrals X and Y, who each have one. *)
Definition codeR : string := Eval vm_compute in generateReferralCode "root@example.com".
Definition codeX : string := Eval vm_compute in generateReferralCode "xena@example.com".
Definition codeY : string := Eval vm_compute in generateReferralCode "yann@example.com".

Definition team_db : db :=
  Eval vm_compute in
  fold_left (fun d r => handle d 10 r)
    [ PostRegister (Some "root@example.com") None;
      PostRegister (Some "xena@example.com") (Some codeR);
      PostRegister (Some "yann@example.com") (Some codeR);
      PostRegister (Some "xena1@example.com") (Some codeX);
      PostRegister (Some "yann1@example.com") (Some codeY) ]
    empty_db.

(** A user whose email has a local part of one character. *)
Definition code_short : string := Eval vm_compute in generateReferralCode "a@b.com".

Definition db_short : db :=
  Eval vm_compute in handle empty_db 10 (PostRegister (Some "a@b.com") None).

End Sample.

(** ** Replies, steps and the databases the server can reach *)



(** The databases that requests build from the empty one. *)
Inductive reachable : db -> Prop :=
  | reachable_empty : reachable empty_db
  | reachable_handle (d : db) (now : nat) (r : request) :
      reachable d -> reachable (handle d now r).

(** The four things a request does to the database: nothing, the insert of
    [createUser] for an email that is not there (under no code or a code
    that is), the two updates of a claim, the inserts of a deposit. *)
Inductive db_step (d : db) (now : nat) : db -> Prop :=
  | step_none : db_step d now d
  | step_create (email : string) (code : option string) :
      findUserByEmail d email = None ->
      (forall c, code = Some c -> findUserByReferralCode d c <> None) ->
      db_step d now (snd (createUser d now email code))
  | step_claim (email : string) (user : User.t) :
      findUserByEmail d email = Some user ->
      (0 < status_total d (User.id user) pending)%Q ->
      db_step d now
        (credit_balance (claim_earnings d now (User.id user))
                        (status_total d (User.id user) pending) (User.id user))
  | step_deposit (email : string) (user : User.t) (amount : Q) :
      findUserByEmail d email = Some user ->
      ~ (amount == 0)%Q ->
      db_step d now
        (mkDb (users d)
              (deposits d
               ++ [Deposit.mk (deposits_seq d) (User.id user) amount "completed" now])
              (referral_earnings d
               ++ spec_earnings now (deposits_seq d) (User.id user) amount
                    (earnings_seq d) (getReferrerChain d (User.id user) 3))
              (users_seq d) (S (deposits_seq d))
              (earnings_seq d + List.length (getReferrerChain d (User.id user) 3))).

(** Serial ids are below their counter and never repeated. *)
Record ids_fresh (d : db) : Prop := mkIdsFresh {
  user_ids_below : forall u, In u (users d) -> (User.id u < users_seq d)%nat;
  user_ids_nodup : NoDup (map User.id (users d));
  deposit_ids_below : forall x, In x (deposits d) -> (Deposit.id x < deposits_seq d)%nat;
  deposit_ids_nodup : NoDup (map Deposit.id (deposits d));
  earning_ids_below :
    forall e, In e (referral_earnings d) -> (Earning.id e < earnings_seq d)%nat;
  earning_ids_nodup : NoDup (map Earning.id (referral_earnings d))
}.

(** The [users] rows as registration leaves them. *)
Record users_registered (d : db) : Prop := mkUsersRegistered {
  emails_nodup : NoDup (map User.email (users d));
  emails_normal : forall u, In u (users d) -> normalize (User.email u) = User.email u;
  codes_generated :
    forall u, In u (users d) -> User.referral_code u = generateReferralCode (User.email u);
  referrers_earlier :
    forall i u c,
      nth_error (users d) i = Some u -> User.referred_by_code u = Some c ->
      exists j r, (j < i)%nat /\ nth_error (users d) j = Some r
                  /\ User.referral_code r = c
}.

(** An earning row as accrual and claim leave it. *)
Record earning_anchored (d : db) (e : Earning.t) : Prop := mkEarningAnchored {
  level_in_table : (1 <= Earning.level e <= 3)%nat;
  percentage_of_level : Earning.percentage e = spec_rate (Earning.level e);
  anchor :
    exists dep, In dep (deposits d)
                /\ Deposit.id dep = Earning.deposit_id e
                /\ Deposit.user_id dep = Earning.referred_user_id e
                /\ Earning.amount e
                   = (Deposit.amount dep * Earning.percentage e / 100)%Q;
  referrer_known : exists r, In r (users d) /\ User.id r = Earning.referrer_id e;
  claimed_when :
    match Earning.status e with
    | pending => Earning.claimed_at e = None
    | claimed => exists t, Earning.claimed_at e = Some t
    end
}.

Definition all_anchored (d : db) : Prop :=
  forall e, In e (referral_earnings d) -> earning_anchored d e.

(** The settled balance is the sum of the claimed earnings. *)
Definition ledger_balanced (d : db) : Prop :=
  forall u, In u (users d) ->
            (User.balance u == status_total d (User.id u) claimed)%Q.

(** The invariants together. *)
Record consistent (d : db) : Prop := mkConsistent {
  c_ids : ids_fresh d;
  c_users : users_registered d;
  c_anchored : all_anchored d;
  c_ledger : ledger_balanced d
}.


(** Level [k] of a team, for [k] from 1 to 3. *)
Definition team_level (tm : team) (k : nat) : list User.t :=
  match k with
  | 1%nat => level1 tm
  | 2%nat => level2 tm
  | 3%nat => level3 tm
  | _ => []
  end.

(** The direct referrer that the chain query finds for a user id. *)
Definition parent (d : db) (userId : nat) : option User.t :=
  hd_error (referrer_rows d userId).

(** The creation times of joined history rows, in order. *)
Definition row_times (l : list (Earning.t * string)) : list nat :=
  map (fun r => Earning.created_at (fst r)) l.

(** The last character of a string, when it has one. *)
Fixpoint last_char (s : string) : option ascii :=
  match s with
  | EmptyString => None
  | String c EmptyString => Some c
  | String _ s' => last_char s'
  end.

Definition is_upper (c : ascii) : bool :=
  let n := nat_of_ascii c in ((65 <=? n) && (n <=? 90))%nat.


(** [ORDER BY created_at DESC] as a property of the joined rows. *)
Fixpoint newest_first (l : list nat) : Prop :=
  match l with
  | [] => True
  | t :: l' => (forall t', In t' l' -> (t' <= t)%nat) /\ newest_first l'
  end.

(** * Properties *)

(** ** The primitives on known values *)

(** The test suite of RFC 1321, in part. *)
Example md5_test_vectors :
  MD5.hex EmptyString = "d41d8cd98f00b204e9800998ecf8427e"
  /\ MD5.hex "a" = "0cc175b9c0f1b6a831c399e269772661"
  /\ MD5.hex "abc" = "900150983cd24fb0d6963f7d28e17f72"
  /\ MD5.hex "message digest" = "f96b697d7cb7938d525a2f31aaf161d0"
  /\ MD5.hex "12345678901234567890123456789012345678901234567890123456789012345678901234567890"
     = "57edf4a22be3c955ac49da2e2107b67a".
Proof. repeat split; vm_compute; reflexivity. Qed.

Example generateReferralCode_johndoe :
  generateReferralCode "  JohnDoe@Example.com " = "211564"
  /\ generateReferralCode "johndoe@example.com" = "211564".
Proof. split; vm_compute; reflexivity. Qed.

Example parseFloat_prefixes :
  Js.parseFloat "  -12.50e1abc" = Js.Fin (-125.0)
  /\ Js.parseFloat ".5" = Js.Fin 0.5
  /\ Js.parseFloat "5." = Js.Fin 5
  /\ Js.parseFloat "1e" = Js.Fin 1
  /\ Js.parseFloat "." = Js.NaN
  /\ Js.parseFloat "-Infinityx" = Js.Infinity true
  /\ Js.parseFloat "abc" = Js.NaN.
Proof. repeat split; vm_compute; reflexivity. Qed.

Example mask_johndoe :
  Mask.replace "johndoe@example.com" = "jo***@example.com"
  /\ Mask.replace "jo@example.com" = "jo***@example.com".
Proof. split; reflexivity. Qed.

(** ** Referral codes *)

Section ReferralCode.

Local Open Scope Z_scope.

Lemma nibble_cases (d : Z) :
  0 <= d < 16 ->
  d = 0 \/ d = 1 \/ d = 2 \/ d = 3 \/ d = 4 \/ d = 5 \/ d = 6 \/ d = 7 \/
  d = 8 \/ d = 9 \/ d = 10 \/ d = 11 \/ d = 12 \/ d = 13 \/ d = 14 \/ d = 15.
Proof. lia. Qed.

Ltac each_nibble H :=
  apply nibble_cases in H;
  repeat (destruct H as [H | H]; [subst |]); [.. | subst].

Lemma hex_value_hex_char (d : Z) :
  0 <= d < 16 -> Js.hex_value (MD5.hex_char d) = Some d.
Proof. intros H. each_nibble H; reflexivity. Qed.

(** A digest never starts with white space, a sign or a [0x] prefix. *)
Lemma parseInt16_hex_char (d0 d1 : Z) (rest : string) :
  0 <= d0 < 16 -> 0 <= d1 < 16 ->
  Js.parseInt16 (String (MD5.hex_char d0) (String (MD5.hex_char d1) rest))
  = Js.hex_digits (String (MD5.hex_char d0) (String (MD5.hex_char d1) rest)).
Proof.
  intros H0 H1. each_nibble H0; each_nibble H1; reflexivity.
Qed.

Lemma le_bytes_range (n : nat) (x b : Z) : In b (MD5.le_bytes n x) -> 0 <= b < 256.
Proof.
  unfold MD5.le_bytes. rewrite in_map_iff. intros (k & <- & _).
  apply Z.mod_pos_bound. lia.
Qed.

Lemma hi_range b : 0 <= MD5.hi b < 16.
Proof. apply Z.mod_pos_bound. lia. Qed.

Lemma lo_range b : 0 <= MD5.lo b < 16.
Proof. apply Z.mod_pos_bound. lia. Qed.

Lemma hex_word_unfold (w : Z) (rest : string) :
  exists b0 b1 b2 b3,
    MD5.hex_word w rest
    = MD5.hex_byte b0 (MD5.hex_byte b1 (MD5.hex_byte b2 (MD5.hex_byte b3 rest))).
Proof. do 4 eexists. reflexivity. Qed.

(** The first eight characters of a digest read as a 32-bit number. *)
Lemma parseInt16_digest (s : string) :
  exists h, Js.parseInt16 (Js.substring0 8 (MD5.hex s)) = Some h /\ 0 <= h < 2 ^ 32.
Proof.
  unfold MD5.hex.
  destruct (hex_word_unfold (MD5.sa (MD5.digest_state (MD5.bytes_of_string s)))
              (MD5.hex_word (MD5.sb (MD5.digest_state (MD5.bytes_of_string s)))
                 (MD5.hex_word (MD5.sc (MD5.digest_state (MD5.bytes_of_string s)))
                    (MD5.hex_word (MD5.sd (MD5.digest_state (MD5.bytes_of_string s)))
                       EmptyString))))
    as (b0 & b1 & b2 & b3 & ->).
  unfold MD5.hex_byte.
  cbn [Js.substring0].
  rewrite parseInt16_hex_char by (apply hi_range || apply lo_range).
  unfold Js.hex_digits. rewrite (hex_value_hex_char _ (hi_range b0)).
  cbn [Js.hex_prefix].
  rewrite !hex_value_hex_char by (apply hi_range || apply lo_range).
  eexists. split; [reflexivity |].
  pose proof (hi_range b0); pose proof (lo_range b0);
  pose proof (hi_range b1); pose proof (lo_range b1);
  pose proof (hi_range b2); pose proof (lo_range b2);
  pose proof (hi_range b3); pose proof (lo_range b3).
  change (2 ^ 32) with 4294967296. lia.
Qed.

Lemma digit_char_is_digit (x : Z) : Js.is_digit (Js.digit_char (x mod 10)) = true.
Proof.
  assert (H : 0 <= x mod 10 < 10) by (apply Z.mod_pos_bound; lia).
  assert (C : x mod 10 = 0 \/ x mod 10 = 1 \/ x mod 10 = 2 \/ x mod 10 = 3 \/
              x mod 10 = 4 \/ x mod 10 = 5 \/ x mod 10 = 6 \/ x mod 10 = 7 \/
              x mod 10 = 8 \/ x mod 10 = 9) by lia.
  repeat (destruct C as [C | C]; [rewrite C; reflexivity |]).
  rewrite C; reflexivity.
Qed.

(** A number of six digits is rendered with six digit characters. *)
Lemma toString_six_digits (n : Z) :
  100000 <= n <= 999999 ->
  String.length (Js.toString n) = 6%nat /\ Js.all_digits (Js.toString n) = true.
Proof.
  intros Hn. unfold Js.toString.
  destruct (Z.ltb_spec n 0) as [? | _]; [lia |].
  assert (Hlog : 16 <= Z.log2 n).
  { change 16 with (Z.log2 65536). apply Z.log2_le_mono. lia. }
  remember (Z.to_nat (Z.log2 n)) as f eqn:Hf.
  assert (Hf5 : (5 <= f)%nat) by lia. clear Hf Hlog.
  do 5 (destruct f as [| f]; [lia |]).
  cbn [Js.digits].
  assert (H1 : 10000 <= n / 10 <= 99999)
    by (split; [apply Z.div_le_lower_bound | apply Z.lt_succ_r, Z.div_lt_upper_bound]; lia).
  assert (H2 : 1000 <= n / 10 / 10 <= 9999)
    by (split; [apply Z.div_le_lower_bound | apply Z.lt_succ_r, Z.div_lt_upper_bound]; lia).
  assert (H3 : 100 <= n / 10 / 10 / 10 <= 999)
    by (split; [apply Z.div_le_lower_bound | apply Z.lt_succ_r, Z.div_lt_upper_bound]; lia).
  assert (H4 : 10 <= n / 10 / 10 / 10 / 10 <= 99)
    by (split; [apply Z.div_le_lower_bound | apply Z.lt_succ_r, Z.div_lt_upper_bound]; lia).
  assert (H5 : 1 <= n / 10 / 10 / 10 / 10 / 10 <= 9)
    by (split; [apply Z.div_le_lower_bound | apply Z.lt_succ_r, Z.div_lt_upper_bound]; lia).
  destruct (Z.ltb_spec n 10); [lia |].
  destruct (Z.ltb_spec (n / 10) 10); [lia |].
  destruct (Z.ltb_spec (n / 10 / 10) 10); [lia |].
  destruct (Z.ltb_spec (n / 10 / 10 / 10) 10); [lia |].
  destruct (Z.ltb_spec (n / 10 / 10 / 10 / 10) 10); [lia |].
  destruct (Z.ltb_spec (n / 10 / 10 / 10 / 10 / 10) 10); [| lia].
  split; [reflexivity |].
  cbn [Js.all_digits]. rewrite !digit_char_is_digit. reflexivity.
Qed.

(** C8: [generateReferralCode] depends on the email only through its
    lower-cased, trimmed form: it reads the first eight hexadecimal
    characters of the MD5 digest of that form as an unsigned 32-bit number
    [h] and renders [h mod 900000 + 100000], a number between 100000 and
    999999, which takes exactly six decimal digits. *)
Theorem generateReferralCode_six_digits (email : string) :
  exists h : Z,
    Js.parseInt16 (Js.substring0 8 (MD5.hex (Js.trim (Js.toLowerCase email))))
    = Some h
    /\ 0 <= h < 2 ^ 32
    /\ generateReferralCode email = Js.toString (h mod 900000 + 100000)
    /\ 100000 <= h mod 900000 + 100000 <= 999999
    /\ String.length (generateReferralCode email) = 6%nat
    /\ Js.all_digits (generateReferralCode email) = true.
Proof.
  destruct (parseInt16_digest (Js.trim (Js.toLowerCase email))) as (h & Hp & Hh).
  exists h. unfold generateReferralCode. rewrite Hp.
  assert (Hr : 100000 <= h mod 900000 + 100000 <= 999999).
  { pose proof (Z.mod_pos_bound h 900000). lia. }
  destruct (toString_six_digits _ Hr) as [Hlen Hdig].
  repeat split; try assumption; try reflexivity; lia.
Qed.

End ReferralCode.

(** ** Email masking *)

Section Masking.

Lemma append_empty_r (s : string) : (s ++ EmptyString)%string = s.
Proof. induction s as [| c s IH]; cbn [append]; [| rewrite IH]; reflexivity. Qed.

Lemma star_group3_no_at (s : string) :
  Mask.all_chars Mask.not_at s = true -> Mask.star_group3 s = None.
Proof.
  induction s as [| c s IH]; cbn [Mask.all_chars Mask.star_group3]; intros H.
  - reflexivity.
  - apply andb_prop in H as [Hc Hs]. rewrite (IH Hs).
    assert (G : Mask.group3 (String c s) = None).
    { unfold Mask.not_at in Hc. apply negb_true_iff in Hc.
      unfold Mask.group3. destruct c as [[] [] [] [] [] [] [] []];
        try reflexivity; discriminate Hc. }
    rewrite G. destruct (Mask.dot c); reflexivity.
Qed.

Lemma match_here_no_at (s : string) :
  Mask.all_chars Mask.not_at s = true -> Mask.match_here s = None.
Proof.
  destruct s as [| c1 [| c2 s]]; try reflexivity.
  cbn [Mask.all_chars Mask.match_here]. intros H.
  apply andb_prop in H as [_ H]. apply andb_prop in H as [_ H].
  rewrite (star_group3_no_at _ H). destruct (Mask.dot c1 && Mask.dot c2); reflexivity.
Qed.

(** A string without an at sign has no match and is returned as it is. *)
Lemma replace_no_at (s : string) :
  Mask.all_chars Mask.not_at s = true -> Mask.replace s = s.
Proof.
  induction s as [| c s IH]; intros H.
  - reflexivity.
  - unfold Mask.replace; fold Mask.replace.
    rewrite (match_here_no_at _ H).
    cbn [Mask.all_chars] in H. apply andb_prop in H as [_ H].
    rewrite (IH H). reflexivity.
Qed.

Lemma dot_star_line (s : string) :
  Mask.all_chars Mask.dot s = true -> Mask.dot_star s = (s, EmptyString).
Proof.
  induction s as [| c s IH]; cbn [Mask.all_chars Mask.dot_star]; intros H.
  - reflexivity.
  - apply andb_prop in H as [Hc Hs]. rewrite Hc, (IH Hs). reflexivity.
Qed.

(** The greedy star stops at the last at sign of the line. *)
Lemma star_group3_last_at (l dom : string) :
  Mask.all_chars Mask.dot l = true ->
  Mask.all_chars Mask.dot dom = true ->
  Mask.all_chars Mask.not_at dom = true ->
  Mask.star_group3 (l ++ String "@" dom) = Some (String "@" dom, EmptyString).
Proof.
  intros Hl Hd Hn. induction l as [| c l IH].
  - cbn [append Mask.star_group3]. change (Mask.dot "@") with true. cbv iota.
    rewrite (star_group3_no_at _ Hn). unfold Mask.group3.
    rewrite (dot_star_line _ Hd). reflexivity.
  - cbn [Mask.all_chars] in Hl. apply andb_prop in Hl as [Hc Hl].
    cbn [append Mask.star_group3]. rewrite Hc, (IH Hl). reflexivity.
Qed.

(** X14: with at least two characters before the at sign, on one line, the
    masked email is the first two characters, three stars, the at sign and
    the domain. *)
Lemma replace_long_local_part (c1 c2 : ascii) (l dom : string) :
  Mask.all_chars Mask.dot (String c1 (String c2 l)) = true ->
  Mask.all_chars Mask.dot dom = true ->
  Mask.all_chars Mask.not_at dom = true ->
  Mask.replace (String c1 (String c2 (l ++ String "@" dom)))
  = String c1 (String c2 ("***" ++ String "@" dom)).
Proof.
  intros Hl Hd Hn. cbn [Mask.all_chars] in Hl.
  apply andb_prop in Hl as [H1 Hl]. apply andb_prop in Hl as [H2 Hl].
  unfold Mask.replace, Mask.match_here.
  rewrite H1, H2, (star_group3_last_at _ _ Hl Hd Hn). cbn [andb append].
  rewrite append_empty_r. reflexivity.
Qed.

(** C9: an email whose local part has one character is returned unmasked,
    whatever the character and the domain: the pattern asks for two
    characters before the text it replaces, finds no match and leaves the
    string as it is, where the masking rule replaces the rest of the local
    part by three stars.  The inviter reply for the user a@b.com shows the
    whole address. *)
Theorem mask_short_local_part (c : ascii) (dom : string) :
  Mask.all_chars Mask.not_at dom = true ->
  Mask.replace (String c (String "@" dom)) = String c (String "@" dom)
  /\ formatMember (User.mk 1 (String c (String "@" dom)) "100000" None 0 0)
     = mkMember (String c (String "@" dom)) 0
  /\ fst (api_inviter Sample.db_short (Some Sample.code_short))
     = Success (mkInviterData "a@b.com" Sample.code_short 10).
Proof.
  intros Hn.
  assert (E : Mask.replace (String c (String "@" dom)) = String c (String "@" dom)).
  { unfold Mask.replace; fold Mask.replace.
    assert (M1 : Mask.match_here (String c (String "@" dom)) = None).
    { cbn [Mask.match_here]. rewrite (star_group3_no_at _ Hn).
      destruct (Mask.dot c && Mask.dot "@"); reflexivity. }
    rewrite M1.
    assert (M2 : Mask.match_here (String "@" dom) = None).
    { destruct dom as [| c2 dom]; [reflexivity |].
      cbn [Mask.match_here]. cbn [Mask.all_chars] in Hn.
      apply andb_prop in Hn as [_ Hn]. rewrite (star_group3_no_at _ Hn).
      destruct (Mask.dot "@" && Mask.dot c2); reflexivity. }
    rewrite M2, (replace_no_at _ Hn). reflexivity. }
  split; [exact E |]. split; [| reflexivity].
  unfold formatMember. cbn [User.email User.created_at]. rewrite E. reflexivity.
Qed.

Lemma mask_short_local_part_witness :
  Mask.replace "a@b.com" = "a@b.com"
  /\ formatMember (User.mk 1 "a@b.com" "100000" None 0 0) = mkMember "a@b.com" 0
  /\ fst (api_inviter Sample.db_short (Some Sample.code_short))
     = Success (mkInviterData "a@b.com" Sample.code_short 10).
Proof. apply (mask_short_local_part "a" "b.com"). reflexivity. Defined.

End Masking.

(** ** Money parsing *)

Section Money.

Lemma or_zero_not_NaN (n : Js.number) : Js.or_zero n <> Js.NaN.
Proof.
  destruct n as [| b | q]; cbn [Js.or_zero]; try discriminate.
  destruct (Qeq_bool q 0); discriminate.
Qed.

Lemma strip_dollar_comma_clean (s : string) :
  Mask.all_chars (fun c => negb (Ascii.eqb c "$" || Ascii.eqb c ","))
                 (Js.strip_dollar_comma s) = true.
Proof.
  induction s as [| c s IH]; cbn [Js.strip_dollar_comma]; [reflexivity |].
  destruct (Ascii.eqb c "$" || Ascii.eqb c ",") eqn:E; [exact IH |].
  cbn [Mask.all_chars]. rewrite E, IH. reflexivity.
Qed.

(** Against C10 as stated: [parseMoney] hands back the number [NaN] when it
    is given it. *)
Lemma parseMoney_NaN_input :
  parseMoney (Js.Number Js.NaN) = Js.NaN
  /\ ~ (forall v : Js.value, parseMoney v <> Js.NaN).
Proof.
  split; [reflexivity |]. intros H. exact (H (Js.Number Js.NaN) eq_refl).
Qed.

End Money.

(** ** The ancestor chain *)

Section Chain.

Variable d : db.

Lemma last_cons_default {A} (l : list A) (a x : A) : last (a :: l) x = last l a.
Proof.
  revert a x. induction l as [| b l IH]; intros a x; [reflexivity |].
  change (last (a :: b :: l) x) with (last (b :: l) x).
  rewrite (IH b x), (IH b a). reflexivity.
Qed.

Lemma walked_from_cons (userId : nat) (x : User.t * nat) chain (i : nat) :
  walked_from userId (x :: chain) (S i) = walked_from (User.id (fst x)) chain i.
Proof. unfold walked_from. cbn [firstn map]. apply last_cons_default. Qed.

Lemma chain_loop_walk (remaining : nat) :
  forall userId level,
    let chain := chain_loop d remaining userId level in
    (List.length chain <= remaining)%nat
    /\ (forall i u l, nth_error chain i = Some (u, l) ->
          l = S (level + i)
          /\ hd_error (referrer_rows d (walked_from userId chain i)) = Some u)
    /\ ((List.length chain < remaining)%nat ->
          referrer_rows d (walked_from userId chain (List.length chain)) = []).
Proof.
  induction remaining as [| n IH]; intros userId level; cbn [chain_loop].
  - repeat split; cbn; try lia; destruct i; discriminate.
  - destruct (referrer_rows d userId) as [| row rows] eqn:E.
    + repeat split; cbn; try lia; try (destruct i; discriminate).
      intros _. exact E.
    + destruct (IH (User.id row) (S level)) as (Hlen & Hnth & Hstop).
      cbv zeta. split; [cbn [List.length]; lia |]. split.
      * intros [| i] u l Hi.
        -- cbn in Hi. injection Hi as <- <-. split; [f_equal; lia |].
           unfold walked_from. cbn. rewrite E. reflexivity.
        -- cbn [nth_error] in Hi. destruct (Hnth i u l Hi) as [-> Hu].
           split; [lia |]. rewrite walked_from_cons. exact Hu.
      * cbn [List.length]. intros Hlt. rewrite walked_from_cons.
        apply Hstop. lia.
Qed.

Lemma referrer_rows_In (userId : nat) (r : User.t) :
  In r (referrer_rows d userId)
  <-> exists u1, In u1 (users d) /\ User.id u1 = userId /\ In r (users d)
                 /\ User.referred_by_code u1 = Some (User.referral_code r).
Proof.
  unfold referrer_rows. rewrite in_flat_map. split.
  - intros (u1 & H1 & Hr). apply filter_In in H1 as [H1 Hid].
    apply filter_In in Hr as [Hr Hc]. apply Nat.eqb_eq in Hid.
    exists u1. repeat split; try assumption.
    unfold refers_to in Hc. destruct (User.referred_by_code u1) as [c |]; [| discriminate].
    apply String.eqb_eq in Hc. congruence.
  - intros (u1 & H1 & Hid & Hr & Hc). exists u1. split.
    + apply filter_In. split; [assumption |]. apply Nat.eqb_eq. assumption.
    + apply filter_In. split; [assumption |]. unfold refers_to. rewrite Hc.
      apply String.eqb_refl.
Qed.

End Chain.

(** C4: [getReferrerChain] has at most [maxLevel] entries; entry number [i]
    (from 0) carries level [i + 1] and the first user whose referral code
    is the [referred_by_code] of the user the walk stands at (the start,
    then the previous entry); the walk stops short of [maxLevel] only when
    that lookup finds nobody.  A user without a referrer gets the empty
    chain, and for C referred by B referred by A the chain of C is
    B at level 1 then A at level 2, the chain of A is empty. *)
Theorem getReferrerChain_walk (d : db) (userId maxLevel : nat) :
  let chain := getReferrerChain d userId maxLevel in
  (List.length chain <= maxLevel)%nat
  /\ (forall i u l, nth_error chain i = Some (u, l) ->
        l = S i
        /\ hd_error (referrer_rows d (walked_from userId chain i)) = Some u)
  /\ ((List.length chain < maxLevel)%nat ->
        referrer_rows d (walked_from userId chain (List.length chain)) = [])
  /\ (forall from r,
        In r (referrer_rows d from)
        <-> exists u1, In u1 (users d) /\ User.id u1 = from /\ In r (users d)
                       /\ User.referred_by_code u1 = Some (User.referral_code r))
  /\ ((forall u, In u (users d) -> User.id u = userId ->
         User.referred_by_code u = None) -> chain = [])
  /\ map (fun e => (User.email (fst e), snd e)) (getReferrerChain Sample.db3 3 3)
     = [("b@example.com", 1%nat); ("a@example.com", 2%nat)]
  /\ getReferrerChain Sample.db3 1 3 = [].
Proof.
  cbv zeta. unfold getReferrerChain.
  destruct (chain_loop_walk d maxLevel userId 0) as (Hlen & Hnth & Hstop).
  split; [exact Hlen |]. split; [exact Hnth |]. split; [exact Hstop |].
  split; [intros from r; apply referrer_rows_In |].
  split; [| split; reflexivity].
  intros Hnone. destruct maxLevel as [| n]; [reflexivity |].
  cbn [chain_loop].
  destruct (referrer_rows d userId) as [| row rows] eqn:E; [reflexivity |].
  assert (Hin : In row (referrer_rows d userId)) by (rewrite E; left; reflexivity).
  apply referrer_rows_In in Hin as (u1 & H1 & Hid & _ & Hc).
  rewrite (Hnone u1 H1 Hid) in Hc. discriminate.
Qed.

Lemma getReferrerChain_walk_witness :
  (forall u, In u (users Sample.db1) -> User.id u = 1%nat ->
     User.referred_by_code u = None)
  /\ getReferrerChain Sample.db1 1 3 = [].
Proof.
  assert (H : forall u, In u (users Sample.db1) -> User.id u = 1%nat ->
                User.referred_by_code u = None).
  { intros u [<- | []] _. reflexivity. }
  split; [exact H |].
  destruct (getReferrerChain_walk Sample.db1 1 3) as (_ & _ & _ & _ & Hnone & _).
  exact (Hnone H).
Defined.

(** ** The team *)

Section Team.

Variable d : db.

Lemma team_l2_fold (rows : list User.t) :
  forall tm,
    fold_left (team_l2_step d) rows tm
    = mkTeam (level1 tm) (level2 tm) (level3 tm ++ flat_map (referrals_of d) rows).
Proof.
  induction rows as [| r rows IH]; intros tm; cbn [fold_left flat_map].
  - rewrite app_nil_r. destruct tm; reflexivity.
  - rewrite IH. unfold team_l2_step. cbn [level1 level2 level3].
    rewrite <- app_assoc. reflexivity.
Qed.

Lemma team_l1_fold (rows : list User.t) :
  forall tm,
    fold_left (team_l1_step d) rows tm
    = mkTeam (level1 tm) (level2 tm ++ flat_map (referrals_of d) rows)
             (level3 tm ++ flat_map (referrals_of d) (flat_map (referrals_of d) rows)).
Proof.
  induction rows as [| r rows IH]; intros tm; cbn [fold_left flat_map].
  - rewrite !app_nil_r. destruct tm; reflexivity.
  - rewrite IH. unfold team_l1_step. rewrite team_l2_fold.
    cbn [level1 level2 level3]. rewrite flat_map_app, <- !app_assoc. reflexivity.
Qed.

End Team.

Lemma referred_by_In (d : db) (code : string) (u : User.t) :
  In u (referred_by d code)
  <-> In u (users d) /\ User.referred_by_code u = Some code.
Proof.
  unfold referred_by. rewrite filter_In. split; intros [Hu Hc]; split; try assumption.
  - destruct (User.referred_by_code u) as [c |]; [| discriminate].
    apply String.eqb_eq in Hc. congruence.
  - rewrite Hc. apply String.eqb_refl.
Qed.

(** C7: for a user that exists, level 1 of [getTeamByLevel] is the list of
    the users whose [referred_by_code] is the user's referral code, level 2
    is the concatenation of the direct referrals of each level 1 member and
    level 3 is the concatenation of the direct referrals of each level 2
    member (a row reached twice is kept twice); for an unknown id the three
    levels are empty.  The team reply counts the three lists and
    [totalTeam] is the sum of the three counts; for R with the direct
    referrals X and Y, who each have one referral, the counts are 2, 2
    and 0 and [totalTeam] is 4. *)
Theorem getTeamByLevel_levels (d : db) (userId : nat) :
  let tm := getTeamByLevel d userId in
  match filter (fun u => Nat.eqb (User.id u) userId) (users d) with
  | [] => tm = mkTeam [] [] []
  | user :: _ =>
      level1 tm = referred_by d (User.referral_code user)
      /\ (forall u, In u (level1 tm)
            <-> In u (users d)
                /\ User.referred_by_code u = Some (User.referral_code user))
      /\ level2 tm = flat_map (referrals_of d) (level1 tm)
      /\ level3 tm = flat_map (referrals_of d) (level2 tm)
  end
  /\ (forall email data,
        fst (api_team d email) = Success data ->
        exists e user,
          required email = Some e
          /\ findUserByEmail d e = Some user
          /\ count (td_level1 data)
             = List.length (level1 (getTeamByLevel d (User.id user)))
          /\ count (td_level2 data)
             = List.length (level2 (getTeamByLevel d (User.id user)))
          /\ count (td_level3 data)
             = List.length (level3 (getTeamByLevel d (User.id user)))
          /\ totalTeam data
             = (count (td_level1 data) + count (td_level2 data)
                + count (td_level3 data))%nat)
  /\ option_map (fun data => (count (td_level1 data), count (td_level2 data),
                              count (td_level3 data), totalTeam data))
       (match fst (api_team Sample.team_db (Some "root@example.com")) with
        | Success data => Some data
        | Failure _ _ => None
        end)
     = Some (2, 2, 0, 4)%nat.
Proof.
  cbv zeta. split; [| split; [| reflexivity]].
  - unfold getTeamByLevel.
    destruct (filter (fun u => Nat.eqb (User.id u) userId) (users d)) as [| user rest];
      [reflexivity |].
    rewrite team_l1_fold. cbn [level1 level2 level3 app].
    split; [reflexivity |]. split; [intros u; apply referred_by_In |].
    split; reflexivity.
  - intros email data. unfold api_team.
    destruct (required email) as [e |]; [| discriminate].
    destruct (findUserByEmail d e) as [user |] eqn:E; [| discriminate].
    cbn [fst]. intros H. injection H as <-. exists e, user.
    cbn [td_level1 td_level2 td_level3 count totalTeam].
    repeat split; try reflexivity. exact E.
Qed.

Lemma getTeamByLevel_levels_witness :
  fst (api_team Sample.team_db (Some "root@example.com"))
  = Success
      (mkTeamData
         (mkLevelData 2 (Some 16%Q)
            [mkMember "xe***@example.com" 10; mkMember "ya***@example.com" 10])
         (mkLevelData 2 (Some 3%Q)
            [mkMember "xe***@example.com" 10; mkMember "ya***@example.com" 10])
         (mkLevelData 0 (Some 2%Q) []) 4)
  /\ exists user,
       findUserByEmail Sample.team_db "root@example.com" = Some user
       /\ totalTeam
            (mkTeamData
               (mkLevelData 2 (Some 16%Q)
                  [mkMember "xe***@example.com" 10; mkMember "ya***@example.com" 10])
               (mkLevelData 2 (Some 3%Q)
                  [mkMember "xe***@example.com" 10; mkMember "ya***@example.com" 10])
               (mkLevelData 0 (Some 2%Q) []) 4)
          = 4%nat.
Proof.
  assert (E : fst (api_team Sample.team_db (Some "root@example.com"))
              = Success
                  (mkTeamData
                     (mkLevelData 2 (Some 16%Q)
                        [mkMember "xe***@example.com" 10;
                         mkMember "ya***@example.com" 10])
                     (mkLevelData 2 (Some 3%Q)
                        [mkMember "xe***@example.com" 10;
                         mkMember "ya***@example.com" 10])
                     (mkLevelData 0 (Some 2%Q) []) 4)) by reflexivity.
  split; [exact E |].
  destruct (getTeamByLevel_levels Sample.team_db 0) as (_ & H & _).
  destruct (H _ _ E) as (e & user & He & Hu & _ & _ & _ & Ht).
  exists user. split; [| exact Ht].
  cbn [required Js.truthy_string] in He. injection He as <-. exact Hu.
Defined.

(** ** Commission accrual *)

Section Accrual.

Variables (now depositId userId : nat) (amount : Q).

Lemma REFERRAL_LEVELS_spec_rate (level : nat) :
  (1 <= level <= 3)%nat -> REFERRAL_LEVELS level = Some (spec_rate level).
Proof.
  intros H. destruct level as [| [| [| [| n]]]]; try reflexivity; lia.
Qed.

Lemma accrue_appends (chain : list (User.t * nat)) :
  forall d,
    (forall r l, In (r, l) chain -> (1 <= l <= 3)%nat) ->
    accrue d now depositId userId amount chain
    = Some (mkDb (users d) (deposits d)
                 (referral_earnings d
                  ++ spec_earnings now depositId userId amount (earnings_seq d) chain)
                 (users_seq d) (deposits_seq d)
                 (earnings_seq d + List.length chain)).
Proof.
  induction chain as [| [referrer level] chain IH]; intros d Hl.
  - cbn [accrue spec_earnings List.length]. rewrite app_nil_r, Nat.add_0_r.
    destruct d; reflexivity.
  - cbn [accrue spec_earnings List.length].
    rewrite (REFERRAL_LEVELS_spec_rate level) by (apply (Hl referrer); left; reflexivity).
    rewrite IH by (intros r l H; apply (Hl r); right; exact H).
    unfold insert_earning.
    cbn [users deposits referral_earnings users_seq deposits_seq earnings_seq].
    rewrite <- app_assoc, Nat.add_succ_r. reflexivity.
Qed.

Lemma spec_earnings_length (next_id : nat) (chain : list (User.t * nat)) :
  List.length (spec_earnings now depositId userId amount next_id chain)
  = List.length chain.
Proof.
  revert next_id. induction chain as [| [r l] chain IH]; intros next_id;
    cbn [spec_earnings List.length]; [| rewrite IH]; reflexivity.
Qed.

Lemma spec_earnings_nth (chain : list (User.t * nat)) :
  forall next_id i referrer level,
    nth_error chain i = Some (referrer, level) ->
    nth_error (spec_earnings now depositId userId amount next_id chain) i
    = Some (Earning.mk (next_id + i) (User.id referrer) userId depositId level
                       (spec_rate level) (amount * spec_rate level / 100)
                       pending now None).
Proof.
  induction chain as [| [r l] chain IH]; intros next_id [| i] referrer level H;
    try discriminate.
  - cbn in H. injection H as -> ->. cbn [spec_earnings nth_error].
    rewrite Nat.add_0_r. reflexivity.
  - cbn [spec_earnings nth_error] in *. rewrite (IH _ _ _ _ H).
    rewrite Nat.add_succ_r. reflexivity.
Qed.

End Accrual.

Lemma getReferrerChain_levels (d : db) (userId maxLevel : nat) (r : User.t) (l : nat) :
  In (r, l) (getReferrerChain d userId maxLevel) -> (1 <= l <= maxLevel)%nat.
Proof.
  intros H. apply In_nth_error in H as [i Hi].
  destruct (chain_loop_walk d maxLevel userId 0) as (Hlen & Hnth & _).
  unfold getReferrerChain in Hi.
  destruct (Hnth i r l Hi) as [-> _].
  assert (i < List.length (chain_loop d maxLevel userId 0))%nat
    by (apply nth_error_Some; rewrite Hi; discriminate).
  lia.
Qed.

Lemma calculateReferralEarnings_appends (d : db) (now depositId userId : nat)
    (amount : Q) :
  calculateReferralEarnings d now depositId userId amount
  = Some (mkDb (users d) (deposits d)
            (referral_earnings d
             ++ spec_earnings now depositId userId amount (earnings_seq d)
                  (getReferrerChain d userId 3))
            (users_seq d) (deposits_seq d)
            (earnings_seq d + List.length (getReferrerChain d userId 3))).
Proof.
  unfold calculateReferralEarnings. apply accrue_appends.
  intros r l H. apply (getReferrerChain_levels d userId 3 r l H).
Qed.



(** ** Claim settlement *)

Section Claim.

Lemma filter_map_commute {A} (p : A -> bool) (f : A -> A) (l : list A) :
  (forall x, p (f x) = p x) -> filter p (map f l) = map f (filter p l).
Proof.
  intros H. induction l as [| x l IH]; cbn [map filter]; [reflexivity |].
  rewrite H. destruct (p x); cbn [map]; rewrite IH; reflexivity.
Qed.

Lemma hd_error_map {A B} (f : A -> B) (l : list A) :
  hd_error (map f l) = option_map f (hd_error l).
Proof. destruct l; reflexivity. Qed.

Lemma credit_row_email (amount : Q) (userId : nat) (u : User.t) :
  User.email (credit_row amount userId u) = User.email u.
Proof. unfold credit_row. destruct (Nat.eqb (User.id u) userId); reflexivity. Qed.

Lemma credit_row_id (amount : Q) (userId : nat) (u : User.t) :
  User.id (credit_row amount userId u) = User.id u.
Proof. unfold credit_row. destruct (Nat.eqb (User.id u) userId); reflexivity. Qed.

(** The row found by email is the same row after the balance update. *)
Lemma findUserByEmail_credit (d : db) (amount : Q) (userId : nat) (email : string) :
  findUserByEmail (credit_balance d amount userId) email
  = option_map (credit_row amount userId) (findUserByEmail d email).
Proof.
  unfold findUserByEmail, credit_balance. cbn [users].
  rewrite filter_map_commute by (intros x; rewrite credit_row_email; reflexivity).
  apply hd_error_map.
Qed.

Lemma claim_row_settled (now referrerId : nat) (e : Earning.t) :
  owed referrerId pending (claim_row now referrerId e) = false.
Proof.
  unfold claim_row. destruct (owed referrerId pending e) eqn:E; [| exact E].
  unfold owed. cbn [Earning.status status_eqb]. apply andb_false_r.
Qed.

(** After the status update no pending row of the referrer is left. *)
Lemma claim_earnings_none_pending (d : db) (now referrerId : nat) :
  filter (owed referrerId pending)
         (referral_earnings (claim_earnings d now referrerId)) = [].
Proof.
  unfold claim_earnings. cbn [referral_earnings].
  induction (referral_earnings d) as [| e l IH]; cbn [map filter]; [reflexivity |].
  rewrite claim_row_settled. exact IH.
Qed.

Lemma Qle_bool_false (x y : Q) : Qle_bool x y = false <-> (y < x)%Q.
Proof.
  split; intros H.
  - apply Qnot_le_lt. intros Hle. apply Qle_bool_iff in Hle. congruence.
  - destruct (Qle_bool x y) eqn:E; [| reflexivity].
    apply Qle_bool_iff in E. exfalso. apply (Qlt_not_le _ _ H E).
Qed.

(** The two outcomes of a claim by a known user. *)
Lemma api_claim_known (d : db) (now : nat) (email : string) (user : User.t) :
  required (Some email) = Some email ->
  findUserByEmail d email = Some user ->
  let total := status_total d (User.id user) pending in
  api_claim d now (Some email)
  = if Qle_bool total 0
    then (Failure 400 "No pending rewards to claim", d)
    else (Success (mkClaimData total (Js.Fin (User.balance user + total))),
          credit_balance (claim_earnings d now (User.id user)) total (User.id user)).
Proof.
  intros Hreq Hfind. cbv zeta. unfold api_claim. rewrite Hreq, Hfind.
  destruct (Qle_bool (status_total d (User.id user) pending) 0); [reflexivity |].
  rewrite findUserByEmail_credit.
  change (findUserByEmail (claim_earnings d now (User.id user)) email)
    with (findUserByEmail d email).
  rewrite Hfind. cbn [option_map]. unfold credit_row.
  rewrite Nat.eqb_refl. reflexivity.
Qed.

End Claim.



(** C2: for a user found by the email of the request, [api_claim] fails
    with "No pending rewards to claim" exactly when the pending earnings of
    the user sum to 0 or less, and then the database is left as it was;
    after a successful claim, a second claim at any later time fails in
    this way and changes nothing. *)
Theorem api_claim_nothing_to_claim (d : db) (now : nat) (email : string) (user : User.t) :
  required (Some email) = Some email ->
  findUserByEmail d email = Some user ->
  let total := status_total d (User.id user) pending in
  let d' := snd (api_claim d now (Some email)) in
  (fst (api_claim d now (Some email)) = Failure 400 "No pending rewards to claim"
   <-> (total <= 0)%Q)
  /\ ((total <= 0)%Q -> d' = d)
  /\ ((0 < total)%Q ->
      forall now',
        api_claim d' now' (Some email)
        = (Failure 400 "No pending rewards to claim", d')).
Proof.
  intros Hreq Hfind. cbv zeta.
  rewrite (api_claim_known d now email user Hreq Hfind). cbv zeta.
  destruct (Qle_bool (status_total d (User.id user) pending) 0) eqn:E.
  - apply Qle_bool_iff in E. cbn [fst snd].
    split; [split; [intros _; exact E | reflexivity] |].
    split; [reflexivity |].
    intros Hpos. exfalso. apply (Qlt_not_le _ _ Hpos E).
  - apply Qle_bool_false in E. cbn [fst snd].
    split; [split; [discriminate | intros Hle; exfalso; apply (Qlt_not_le _ _ E Hle)] |].
    split; [intros Hle; exfalso; apply (Qlt_not_le _ _ E Hle) |].
    intros _ now'.
    set (total := status_total d (User.id user) pending).
    set (d2 := credit_balance (claim_earnings d now (User.id user)) total (User.id user)).
    assert (Hfind2 : findUserByEmail d2 email
                     = Some (credit_row total (User.id user) user)).
    { unfold d2. rewrite findUserByEmail_credit.
      change (findUserByEmail (claim_earnings d now (User.id user)) email)
        with (findUserByEmail d email).
      rewrite Hfind. reflexivity. }
    rewrite (api_claim_known d2 now' email _ Hreq Hfind2). cbv zeta.
    rewrite credit_row_id.
    assert (Hzero : status_total d2 (User.id user) pending = 0%Q).
    { unfold status_total, d2, credit_balance. cbn [referral_earnings].
      rewrite claim_earnings_none_pending. reflexivity. }
    rewrite Hzero. reflexivity.
Qed.

Lemma api_claim_nothing_to_claim_witness :
  findUserByEmail Sample.db4 "b@example.com"
  = Some (User.mk 2 "b@example.com" Sample.codeB (Some Sample.codeA) 0 20)
  /\ (0 < status_total Sample.db4 2 pending)%Q
  /\ api_claim (snd (api_claim Sample.db4 50 (Some "b@example.com"))) 51
               (Some "b@example.com")
     = (Failure 400 "No pending rewards to claim",
        snd (api_claim Sample.db4 50 (Some "b@example.com"))).
Proof.
  assert (U : findUserByEmail Sample.db4 "b@example.com"
              = Some (User.mk 2 "b@example.com" Sample.codeB (Some Sample.codeA) 0 20))
    by reflexivity.
  assert (P : (0 < status_total Sample.db4 2 pending)%Q) by reflexivity.
  split; [exact U |]. split; [exact P |].
  exact (proj2 (proj2 (api_claim_nothing_to_claim Sample.db4 50 "b@example.com"
                         _ eq_refl U)) P 51%nat).
Defined.

(** ** Balances *)

Section Balances.

Lemma accrue_users (now depositId userId : nat) (amount : Q) (chain : list (User.t * nat)) :
  forall d d', accrue d now depositId userId amount chain = Some d' -> users d' = users d.
Proof.
  induction chain as [| [referrer level] chain IH]; intros d d'; cbn [accrue].
  - intros H. injection H as <-. reflexivity.
  - destruct (REFERRAL_LEVELS level) as [p |]; [| discriminate].
    intros H. rewrite (IH _ _ H). reflexivity.
Qed.

Lemma handle_users_step (d : db) (now : nat) (r : request) :
  users_step d r (handle d now r).
Proof.
  destruct r as [email | email code | code | email | email | email | email amount
                 | email |]; cbn [handle].
  - unfold api_referral. destruct (required email) as [e |]; [| apply users_same; reflexivity].
    destruct (findUserByEmail d e); [apply users_same; reflexivity |].
    eapply users_created. reflexivity.
  - unfold api_register. destruct (required email) as [e |]; [| apply users_same; reflexivity].
    destruct (findUserByEmail d e); [apply users_same; reflexivity |].
    eapply users_created. reflexivity.
  - unfold api_inviter. destruct (required code) as [c |]; [| apply users_same; reflexivity].
    destruct (findUserByReferralCode d c); apply users_same; reflexivity.
  - unfold api_team. destruct (required email) as [e |]; [| apply users_same; reflexivity].
    destruct (findUserByEmail d e); apply users_same; reflexivity.
  - unfold api_balance. destruct (required email) as [e |]; [| apply users_same; reflexivity].
    destruct (findUserByEmail d e); apply users_same; reflexivity.
  - unfold api_claim. destruct (required email) as [e |]; [| apply users_same; reflexivity].
    destruct (findUserByEmail d e) as [user |]; [| apply users_same; reflexivity].
    destruct (Qle_bool (status_total d (User.id user) pending) 0) eqn:E;
      [apply users_same; reflexivity |].
    apply Qle_bool_false in E.
    apply (users_credited d _ _ (status_total d (User.id user) pending)
             (User.id user) email eq_refl E).
    destruct (findUserByEmail _ e); reflexivity.
  - unfold api_deposit. destruct (required email) as [e |]; [| apply users_same; reflexivity].
    destruct (required_amount amount) as [a |]; [| apply users_same; reflexivity].
    destruct (findUserByEmail d e) as [user |]; [| apply users_same; reflexivity].
    unfold insert_deposit, calculateReferralEarnings.
    destruct (accrue _ _ _ _ _ _) as [d2 |] eqn:E; [| apply users_same; reflexivity].
    apply users_same. cbn [snd]. rewrite (accrue_users _ _ _ _ _ _ _ E). reflexivity.
  - unfold api_earnings_history. destruct (required email) as [e |]; [| apply users_same; reflexivity].
    destruct (findUserByEmail d e); apply users_same; reflexivity.
  - apply users_same; reflexivity.
Qed.

End Balances.

(** C5: whatever the request, every row of [users] is still there after it,
    at the same place and with the same id, with a balance that is not
    smaller; and a balance that has grown has grown through a claim
    request. *)
Theorem balance_never_decreases (d : db) (now : nat) (r : request) (i : nat)
    (u : User.t) :
  nth_error (users d) i = Some u ->
  exists u',
    nth_error (users (handle d now r)) i = Some u'
    /\ User.id u' = User.id u
    /\ (User.balance u <= User.balance u')%Q
    /\ ((User.balance u < User.balance u')%Q -> exists email, r = PostClaim email).
Proof.
  intros Hu.
  destruct (handle_users_step d now r) as [E | row E | amount userId email Hr Hpos E];
    rewrite E.
  - exists u. repeat split; try assumption; try apply Qle_refl.
    intros H. exfalso. apply (Qlt_irrefl _ H).
  - exists u. split.
    + rewrite nth_error_app1; [exact Hu |].
      apply nth_error_Some. rewrite Hu. discriminate.
    + repeat split; try apply Qle_refl.
      intros H. exfalso. apply (Qlt_irrefl _ H).
  - exists (credit_row amount userId u).
    split; [apply (map_nth_error _ _ _ Hu) |].
    split; [apply credit_row_id |].
    split; [| intros _; exists email; exact Hr].
    unfold credit_row. destruct (Nat.eqb (User.id u) userId); cbn [User.balance]; lra.
Qed.

Lemma balance_never_decreases_witness :
  exists u',
    nth_error (users (handle Sample.db4 50 (PostClaim (Some "b@example.com")))) 1
    = Some u'
    /\ User.id u' = 2%nat
    /\ (0 <= User.balance u')%Q
    /\ ((0 < User.balance u')%Q ->
        exists email, PostClaim (Some "b@example.com") = PostClaim email).
Proof.
  exact (balance_never_decreases Sample.db4 50 (PostClaim (Some "b@example.com")) 1
           (User.mk 2 "b@example.com" Sample.codeB (Some Sample.codeA) 0 20) eq_refl).
Defined.

(** ** Deposits *)

(** Against C6 as stated: a deposit of -5 is accepted and stored, the
    handler refuses an amount that is absent or 0 and nothing else. *)
Lemma api_deposit_negative_amount :
  fst (api_deposit Sample.db3 40 (Some "c@example.com") (Some (-5)%Q))
  = Success (mkDepositData 1 (-5)%Q)
  /\ deposits (snd (api_deposit Sample.db3 40 (Some "c@example.com") (Some (-5)%Q)))
     = [Deposit.mk 1 3 (-5)%Q "completed" 40]
  /\ ~ (0 < Deposit.amount (Deposit.mk 1 3 (-5)%Q "completed" 40))%Q
  /\ ~ (forall d now email amount data d',
          api_deposit d now email amount = (Success data, d') ->
          forall dep, In dep (deposits d') -> (0 < Deposit.amount dep)%Q).
Proof.
  split; [reflexivity |]. split; [reflexivity |]. split; [discriminate |].
  intros H.
  assert (N : (0 < Deposit.amount (Deposit.mk 1 3 (-5)%Q "completed" 40))%Q).
  { apply (H Sample.db3 40%nat (Some "c@example.com") (Some (-5)%Q) _ _ eq_refl).
    left. reflexivity. }
  discriminate N.
Qed.

(** C6, amended: a deposit request that is accepted carries an email and a
    numeric amount different from 0, names a known user, and stores exactly
    one new deposit row: the requested amount, as it is, for that user,
    with the status completed; the reply returns the id of that row and the
    amount.  The amount is not required to be positive. *)
Theorem api_deposit_stores_amount (d : db) (now : nat) (email : option string)
    (amount : option Q) (data : deposit_data) (d' : db) :
  api_deposit d now email amount = (Success data, d') ->
  exists e a user,
    required email = Some e
    /\ amount = Some a
    /\ ~ (a == 0)%Q
    /\ findUserByEmail d e = Some user
    /\ deposits d'
       = (deposits d ++ [Deposit.mk (deposits_seq d) (User.id user) a "completed" now])%list
    /\ data = mkDepositData (deposits_seq d) a.
Proof.
  unfold api_deposit.
  destruct (required email) as [e |]; [| discriminate].
  destruct amount as [a |]; [| discriminate]. cbn [required_amount].
  destruct (Qeq_bool a 0) eqn:Ha; [discriminate |].
  destruct (findUserByEmail d e) as [user |] eqn:Hu; [| discriminate].
  unfold insert_deposit. rewrite calculateReferralEarnings_appends.
  intros H. injection H as <- <-.
  exists e, a, user.
  split; [reflexivity |]. split; [reflexivity |].
  split; [intros Hz; apply Qeq_bool_iff in Hz; congruence |].
  split; [exact Hu |]. split; reflexivity.
Qed.

Lemma api_deposit_stores_amount_witness :
  exists e a user,
    required (Some "c@example.com") = Some e
    /\ Some 100%Q = Some a
    /\ ~ (a == 0)%Q
    /\ findUserByEmail Sample.db3 e = Some user
    /\ deposits Sample.db4
       = (deposits Sample.db3
          ++ [Deposit.mk (deposits_seq Sample.db3) (User.id user) a "completed" 40])%list
    /\ mkDepositData 1 100%Q = mkDepositData (deposits_seq Sample.db3) a.
Proof.
  exact (api_deposit_stores_amount Sample.db3 40 (Some "c@example.com") (Some 100%Q)
           (mkDepositData 1 100%Q) Sample.db4 eq_refl).
Defined.

(** ** Money in the replies *)

(** C10, amended: [parseMoney] is total; it returns 0 for [null] and
    [undefined], a number as it is, and for a string the number read by
    [parseFloat] after every dollar sign and comma is removed, with 0 when
    that reading gives [NaN] (or 0).  Its result is [NaN] exactly when its
    input is the number [NaN].  The balance and claim replies, built from
    stored balances, never carry [NaN]. *)
Theorem parseMoney_NaN_only_from_NaN (v : Js.value) :
  (parseMoney v = Js.NaN <-> v = Js.Number Js.NaN)
  /\ parseMoney Js.Null = Js.Fin 0
  /\ parseMoney Js.Undefined = Js.Fin 0
  /\ (forall n, parseMoney (Js.Number n) = n)
  /\ (forall s,
        parseMoney (Js.Str s)
        = Js.or_zero (Js.parseFloat (Js.strip_dollar_comma s))
        /\ Mask.all_chars (fun c => negb (Ascii.eqb c "$" || Ascii.eqb c ","))
                          (Js.strip_dollar_comma s) = true
        /\ (Js.parseFloat (Js.strip_dollar_comma s) = Js.NaN ->
            parseMoney (Js.Str s) = Js.Fin 0))
  /\ (forall d email data,
        fst (api_balance d email) = Success data -> totalBalance data <> Js.NaN)
  /\ (forall d now email data,
        fst (api_claim d now email) = Success data -> newBalance data <> Js.NaN)
  /\ parseMoney (Js.Str "$1,234.56") = Js.Fin 1234.56
  /\ parseMoney (Js.Str "abc") = Js.Fin 0.
Proof.
  split.
  { split.
    - destruct v as [| | n | s]; cbn [parseMoney]; try discriminate.
      + intros ->. reflexivity.
      + intros H. exfalso. exact (or_zero_not_NaN _ H).
    - intros ->. reflexivity. }
  split; [reflexivity |]. split; [reflexivity |]. split; [reflexivity |].
  split.
  { intros s. split; [reflexivity |]. split; [apply strip_dollar_comma_clean |].
    cbn [parseMoney]. intros ->. reflexivity. }
  split.
  { intros d email data. unfold api_balance.
    destruct (required email) as [e |]; [| discriminate].
    destruct (findUserByEmail d e) as [user |]; [| discriminate].
    cbn [fst]. intros H. injection H as <-. cbn. discriminate. }
  split.
  { intros d now email data. unfold api_claim.
    destruct (required email) as [e |]; [| discriminate].
    destruct (findUserByEmail d e) as [user |]; [| discriminate].
    destruct (Qle_bool _ 0); [discriminate |].
    destruct (findUserByEmail _ e) as [updated |]; [| discriminate].
    cbn [fst]. intros H. injection H as <-. cbn. discriminate. }
  split; reflexivity.
Qed.

Lemma parseMoney_NaN_only_from_NaN_witness :
  Js.parseFloat (Js.strip_dollar_comma "n/a") = Js.NaN
  /\ parseMoney (Js.Str "n/a") = Js.Fin 0.
Proof.
  assert (H : Js.parseFloat (Js.strip_dollar_comma "n/a") = Js.NaN) by reflexivity.
  split; [exact H |].
  destruct (parseMoney_NaN_only_from_NaN Js.Null) as (_ & _ & _ & _ & Hs & _).
  exact (proj2 (proj2 (Hs "n/a")) H).
Defined.

(** ** Email normalisation *)

Section Normalisation.

Lemma lower_char_space (c : ascii) : Js.is_space (Js.lower_char c) = Js.is_space c.
Proof. destruct c as [[] [] [] [] [] [] [] []]; reflexivity. Qed.

Lemma lower_char_idem (c : ascii) : Js.lower_char (Js.lower_char c) = Js.lower_char c.
Proof. destruct c as [[] [] [] [] [] [] [] []]; reflexivity. Qed.

Lemma toLowerCase_idem (s : string) :
  Js.toLowerCase (Js.toLowerCase s) = Js.toLowerCase s.
Proof.
  induction s as [| c s IH]; cbn [Js.toLowerCase]; [reflexivity |].
  rewrite lower_char_idem, IH. reflexivity.
Qed.

Lemma toLowerCase_trimStart (s : string) :
  Js.toLowerCase (Js.trimStart s) = Js.trimStart (Js.toLowerCase s).
Proof.
  induction s as [| c s IH]; cbn [Js.toLowerCase Js.trimStart]; [reflexivity |].
  rewrite lower_char_space. destruct (Js.is_space c); [exact IH | reflexivity].
Qed.

Lemma toLowerCase_trimEnd (s : string) :
  Js.toLowerCase (Js.trimEnd s) = Js.trimEnd (Js.toLowerCase s).
Proof.
  induction s as [| c s IH]; cbn [Js.toLowerCase Js.trimEnd]; [reflexivity |].
  rewrite <- IH, lower_char_space.
  destruct (Js.trimEnd s) as [| c' t]; cbn [Js.toLowerCase].
  - destruct (Js.is_space c); reflexivity.
  - reflexivity.
Qed.

Lemma trimEnd_idem (s : string) : Js.trimEnd (Js.trimEnd s) = Js.trimEnd s.
Proof.
  induction s as [| c s IH]; cbn [Js.trimEnd]; [reflexivity |].
  destruct (Js.trimEnd s) as [| c' t] eqn:E.
  - destruct (Js.is_space c) eqn:Ec; [reflexivity |].
    cbn [Js.trimEnd]. rewrite Ec. reflexivity.
  - cbn [Js.trimEnd] in IH |- *.
    destruct (Js.trimEnd t) as [| c'' t'] eqn:Et.
    + destruct (Js.is_space c') eqn:Ec'; [discriminate IH |].
      injection IH as <-. reflexivity.
    + injection IH as <-. reflexivity.
Qed.

(** Nothing is left to trim at the start of a string that has been trimmed
    at the start and then at the end. *)
Lemma trimStart_trimEnd_trimStart (s : string) :
  Js.trimStart (Js.trimEnd (Js.trimStart s)) = Js.trimEnd (Js.trimStart s).
Proof.
  induction s as [| c s IH]; cbn [Js.trimStart]; [reflexivity |].
  destruct (Js.is_space c) eqn:Ec; [exact IH |].
  cbn [Js.trimEnd].
  destruct (Js.trimEnd s) as [| c' t]; rewrite ?Ec; cbn [Js.trimStart];
    rewrite Ec; reflexivity.
Qed.

Lemma trim_idem (s : string) : Js.trim (Js.trim s) = Js.trim s.
Proof.
  unfold Js.trim. rewrite trimStart_trimEnd_trimStart. apply trimEnd_idem.
Qed.

Lemma toLowerCase_trim (s : string) :
  Js.toLowerCase (Js.trim s) = Js.trim (Js.toLowerCase s).
Proof.
  unfold Js.trim. rewrite toLowerCase_trimEnd, toLowerCase_trimStart. reflexivity.
Qed.

Lemma normalize_idem (email : string) : normalize (normalize email) = normalize email.
Proof.
  unfold normalize. rewrite toLowerCase_trim, toLowerCase_idem. apply trim_idem.
Qed.

Lemma trimStart_head (s : string) :
  match Js.trimStart s with
  | String c _ => Js.is_space c = false
  | EmptyString => True
  end.
Proof.
  induction s as [| c s IH]; cbn [Js.trimStart]; [exact I |].
  destruct (Js.is_space c) eqn:Ec; [exact IH | exact Ec].
Qed.

Lemma trimEnd_last (s : string) :
  match last_char (Js.trimEnd s) with
  | Some c => Js.is_space c = false
  | None => Js.trimEnd s = EmptyString
  end.
Proof.
  induction s as [| c s IH]; cbn [Js.trimEnd]; [reflexivity |].
  destruct (Js.trimEnd s) as [| c' t] eqn:E.
  - destruct (Js.is_space c) eqn:Ec; cbn [last_char]; [reflexivity | exact Ec].
  - change (last_char (String c (String c' t))) with (last_char (String c' t)).
    destruct (last_char (String c' t)); [exact IH | discriminate IH].
Qed.

End Normalisation.

(** ** What a request does to the database *)

Section Steps.

Lemma referrer_rows_users (d1 d2 : db) (userId : nat) :
  users d1 = users d2 -> referrer_rows d1 userId = referrer_rows d2 userId.
Proof. unfold referrer_rows. intros ->. reflexivity. Qed.

Lemma chain_loop_users (d1 d2 : db) (remaining : nat) :
  users d1 = users d2 ->
  forall userId level,
    chain_loop d1 remaining userId level = chain_loop d2 remaining userId level.
Proof.
  intros E. induction remaining as [| n IH]; intros userId level; cbn [chain_loop];
    [reflexivity |].
  rewrite (referrer_rows_users d1 d2 userId E).
  destruct (referrer_rows d2 userId) as [| row rows]; [reflexivity |].
  rewrite IH. reflexivity.
Qed.

Lemma getReferrerChain_users (d1 d2 : db) (userId maxLevel : nat) :
  users d1 = users d2 ->
  getReferrerChain d1 userId maxLevel = getReferrerChain d2 userId maxLevel.
Proof. intros E. apply chain_loop_users. exact E. Qed.

Lemma createUser_step (d : db) (now : nat) (email : string) (code : option string) :
  findUserByEmail d email = None ->
  db_step d now
    (snd (createUser d now email
            match required code with
            | Some c =>
                match findUserByReferralCode d c with
                | Some _ => Some c
                | None => None
                end
            | None => None
            end)).
Proof.
  intros Hnone. apply step_create; [exact Hnone |].
  intros c Hc. destruct (required code) as [c' |]; [| discriminate].
  destruct (findUserByReferralCode d c') eqn:E; [| discriminate].
  injection Hc as <-. rewrite E. discriminate.
Qed.

(** Every request is one of the four steps. *)
Lemma handle_db_step (d : db) (now : nat) (r : request) :
  db_step d now (handle d now r).
Proof.
  destruct r as [email | email code | code | email | email | email | email amount
                 | email |]; cbn [handle].
  - unfold api_referral. destruct (required email) as [e |]; [| apply step_none].
    destruct (findUserByEmail d e) eqn:E; [apply step_none |].
    apply (step_create d now e None E). discriminate.
  - unfold api_register. destruct (required email) as [e |]; [| apply step_none].
    destruct (findUserByEmail d e) eqn:E; [apply step_none |].
    apply (createUser_step d now e code E).
  - unfold api_inviter. destruct (required code) as [c |]; [| apply step_none].
    destruct (findUserByReferralCode d c); apply step_none.
  - unfold api_team. destruct (required email) as [e |]; [| apply step_none].
    destruct (findUserByEmail d e); apply step_none.
  - unfold api_balance. destruct (required email) as [e |]; [| apply step_none].
    destruct (findUserByEmail d e); apply step_none.
  - unfold api_claim. destruct (required email) as [e |]; [| apply step_none].
    destruct (findUserByEmail d e) as [user |] eqn:Hu; [| apply step_none].
    destruct (Qle_bool (status_total d (User.id user) pending) 0) eqn:E;
      [apply step_none |].
    apply Qle_bool_false in E.
    match goal with
    | |- db_step _ _ (snd (match ?x with _ => _ end)) => destruct x
    end; cbn [snd]; apply (step_claim d now e user Hu E).
  - unfold api_deposit. destruct (required email) as [e |]; [| apply step_none].
    destruct amount as [a |]; [| apply step_none]. cbn [required_amount].
    destruct (Qeq_bool a 0) eqn:Ha; [apply step_none |].
    destruct (findUserByEmail d e) as [user |] eqn:Hu; [| apply step_none].
    unfold insert_deposit. rewrite calculateReferralEarnings_appends.
    cbn [snd users deposits referral_earnings users_seq deposits_seq earnings_seq
         Deposit.id].
    match goal with
    | |- context [getReferrerChain ?d1 (User.id user) 3] =>
        rewrite (getReferrerChain_users d1 d (User.id user) 3 eq_refl)
    end.
    apply (step_deposit d now e user a Hu).
    intros Hz. apply Qeq_bool_iff in Hz. congruence.
  - unfold api_earnings_history. destruct (required email) as [e |]; [| apply step_none].
    destruct (findUserByEmail d e); apply step_none.
  - apply step_none.
Qed.

End Steps.

(** ** Invariants of the reachable databases *)

Section Invariants.

Lemma NoDup_app_disjoint {A} (l1 l2 : list A) :
  NoDup l1 -> NoDup l2 -> (forall x, In x l1 -> ~ In x l2) -> NoDup (l1 ++ l2).
Proof.
  intros H1 H2 Hd. induction H1 as [| x l Hx H1 IH]; cbn [app]; [exact H2 |].
  constructor.
  - rewrite in_app_iff. intros [H | H]; [exact (Hx H) |].
    exact (Hd x (or_introl eq_refl) H).
  - apply IH. intros y Hy. apply Hd. right. exact Hy.
Qed.

Lemma credit_row_ids (amount : Q) (userId : nat) (l : list User.t) :
  map User.id (map (credit_row amount userId) l) = map User.id l.
Proof.
  rewrite map_map. apply map_ext. intros u. apply credit_row_id.
Qed.

Lemma claim_row_id (now referrerId : nat) (e : Earning.t) :
  Earning.id (claim_row now referrerId e) = Earning.id e.
Proof. unfold claim_row. destruct (owed referrerId pending e); reflexivity. Qed.

Lemma spec_earnings_ids (now depositId userId : nat) (amount : Q)
    (chain : list (User.t * nat)) :
  forall next_id,
    map Earning.id (spec_earnings now depositId userId amount next_id chain)
    = seq next_id (List.length chain).
Proof.
  induction chain as [| [r l] chain IH]; intros next_id;
    cbn [spec_earnings map List.length seq Earning.id]; [reflexivity |].
  rewrite IH. reflexivity.
Qed.

Lemma db_step_ids_fresh (d d' : db) (now : nat) :
  db_step d now d' -> ids_fresh d -> ids_fresh d'.
Proof.
  intros Hstep [Hu Hun Hd Hdn He Hen].
  destruct Hstep as [| email code _ _ | email user _ _ | email user amount _ _].
  - constructor; assumption.
  - constructor; cbn [createUser snd users deposits referral_earnings users_seq
                      deposits_seq earnings_seq]; try assumption.
    + intros u Hin. apply in_app_iff in Hin as [Hin | [<- | []]].
      * specialize (Hu u Hin). lia.
      * cbn [User.id]. lia.
    + rewrite map_app. apply NoDup_app_disjoint; [exact Hun | |].
      * cbn. constructor; [intros [] | constructor].
      * intros x Hx [<- | []]. apply in_map_iff in Hx as (u & Hid & Hin).
        specialize (Hu u Hin). cbn [User.id] in Hid. lia.
  - constructor; cbn [credit_balance claim_earnings users deposits referral_earnings
                      users_seq deposits_seq earnings_seq]; try assumption.
    + intros u Hin. apply in_map_iff in Hin as (u0 & <- & Hin).
      rewrite credit_row_id. exact (Hu u0 Hin).
    + rewrite credit_row_ids. exact Hun.
    + intros e Hin. apply in_map_iff in Hin as (e0 & <- & Hin).
      rewrite claim_row_id. exact (He e0 Hin).
    + rewrite map_map.
      rewrite (map_ext _ Earning.id (claim_row_id now (User.id user))). exact Hen.
  - constructor; cbn [users deposits referral_earnings users_seq deposits_seq
                      earnings_seq]; try assumption.
    + intros x Hin. apply in_app_iff in Hin as [Hin | [<- | []]].
      * specialize (Hd x Hin). lia.
      * cbn [Deposit.id]. lia.
    + rewrite map_app. apply NoDup_app_disjoint; [exact Hdn | |].
      * cbn. constructor; [intros [] | constructor].
      * intros x Hx [<- | []]. apply in_map_iff in Hx as (y & Hid & Hin).
        specialize (Hd y Hin). cbn [Deposit.id] in Hid. lia.
    + intros e Hin. apply in_app_iff in Hin as [Hin | Hin].
      * specialize (He e Hin). lia.
      * apply (in_map Earning.id) in Hin. rewrite spec_earnings_ids in Hin.
        apply in_seq in Hin. lia.
    + rewrite map_app, spec_earnings_ids.
      apply NoDup_app_disjoint; [exact Hen | apply seq_NoDup |].
      intros x Hx Hs. apply in_seq in Hs.
      apply in_map_iff in Hx as (e & Hid & Hin). specialize (He e Hin). lia.
Qed.

Lemma empty_ids_fresh : ids_fresh empty_db.
Proof. constructor; cbn; try (intros ? []); constructor. Qed.

End Invariants.

Section Registered.

Lemma hd_error_filter_none {A} (p : A -> bool) (l : list A) :
  hd_error (filter p l) = None -> forall x, In x l -> p x = false.
Proof.
  intros H x Hin. destruct (p x) eqn:E; [| reflexivity].
  assert (Hf : In x (filter p l)) by (apply filter_In; split; assumption).
  destruct (filter p l); [destruct Hf | discriminate H].
Qed.

Lemma hd_error_filter_some {A} (p : A -> bool) (l : list A) (x : A) :
  hd_error (filter p l) = Some x -> In x l /\ p x = true.
Proof.
  intros H. apply filter_In. destruct (filter p l) as [| y l']; [discriminate |].
  injection H as ->. left. reflexivity.
Qed.

Lemma generateReferralCode_normalize (email : string) :
  generateReferralCode (normalize email) = generateReferralCode email.
Proof.
  unfold generateReferralCode. fold (normalize (normalize email)) (normalize email).
  rewrite normalize_idem. reflexivity.
Qed.

Lemma credit_row_fields (amount : Q) (userId : nat) (u : User.t) :
  User.email (credit_row amount userId u) = User.email u
  /\ User.referral_code (credit_row amount userId u) = User.referral_code u
  /\ User.referred_by_code (credit_row amount userId u) = User.referred_by_code u
  /\ User.created_at (credit_row amount userId u) = User.created_at u.
Proof. unfold credit_row. destruct (Nat.eqb (User.id u) userId); repeat split. Qed.

Lemma db_step_users_registered (d d' : db) (now : nat) :
  db_step d now d' -> users_registered d -> users_registered d'.
Proof.
  intros Hstep [Hnd Hnorm Hcode Href].
  destruct Hstep as [| email code Hnone Hvalid | email user _ _ | email user amount _ _].
  - constructor; assumption.
  - constructor; cbn [createUser snd users].
    + rewrite map_app. apply NoDup_app_disjoint; [exact Hnd | |].
      * cbn. constructor; [intros [] | constructor].
      * intros x Hx [<- | []]. cbn [User.email] in Hx.
        apply in_map_iff in Hx as (u & He & Hin).
        pose proof (hd_error_filter_none _ _ Hnone u Hin) as Hf. cbn beta in Hf.
        rewrite He, String.eqb_refl in Hf. discriminate.
    + intros u Hin. apply in_app_iff in Hin as [Hin | [<- | []]];
        [exact (Hnorm u Hin) | apply normalize_idem].
    + intros u Hin. apply in_app_iff in Hin as [Hin | [<- | []]];
        [exact (Hcode u Hin) |].
      cbn [User.referral_code User.email]. symmetry. apply generateReferralCode_normalize.
    + intros i u c Hi Hc.
      destruct (Nat.lt_ge_cases i (List.length (users d))) as [Hlt | Hge].
      * rewrite nth_error_app1 in Hi by exact Hlt.
        destruct (Href i u c Hi Hc) as (j & r & Hj & Hr & Hrc).
        exists j, r. repeat split; try assumption.
        rewrite nth_error_app1 by lia. exact Hr.
      * rewrite nth_error_app2 in Hi by exact Hge.
        destruct (i - List.length (users d))%nat as [| k] eqn:Ek;
          [| destruct k; discriminate Hi].
        cbn in Hi. injection Hi as <-. cbn [User.referred_by_code] in Hc.
        specialize (Hvalid c Hc).
        destruct (findUserByReferralCode d c) as [r |] eqn:Er; [| congruence].
        apply hd_error_filter_some in Er as [Hin Hrc]. apply String.eqb_eq in Hrc.
        apply In_nth_error in Hin as [j Hj]. exists j, r.
        assert (j < List.length (users d))%nat
          by (apply nth_error_Some; rewrite Hj; discriminate).
        repeat split; [lia | | exact Hrc].
        rewrite nth_error_app1 by assumption. exact Hj.
  - constructor; cbn [credit_balance claim_earnings users].
    + rewrite map_map.
      rewrite (map_ext _ User.email
                 (fun u => proj1 (credit_row_fields _ (User.id user) u))).
      exact Hnd.
    + intros u Hin. apply in_map_iff in Hin as (u0 & <- & Hin).
      rewrite (proj1 (credit_row_fields _ _ u0)). exact (Hnorm u0 Hin).
    + intros u Hin. apply in_map_iff in Hin as (u0 & <- & Hin).
      destruct (credit_row_fields (status_total d (User.id user) pending)
                  (User.id user) u0) as (-> & -> & _).
      exact (Hcode u0 Hin).
    + intros i u c Hi Hc. rewrite nth_error_map in Hi.
      destruct (nth_error (users d) i) as [u0 |] eqn:Hu0; [| discriminate].
      injection Hi as <-.
      destruct (credit_row_fields (status_total d (User.id user) pending)
                  (User.id user) u0) as (_ & _ & Hr & _).
      rewrite Hr in Hc. destruct (Href i u0 c Hu0 Hc) as (j & r & Hj & Hrj & Hrc).
      exists j, (credit_row (status_total d (User.id user) pending) (User.id user) r).
      repeat split; [exact Hj | rewrite nth_error_map, Hrj; reflexivity |].
      destruct (credit_row_fields (status_total d (User.id user) pending)
                  (User.id user) r) as (_ & -> & _).
      exact Hrc.
  - constructor; assumption.
Qed.

Lemma empty_users_registered : users_registered empty_db.
Proof.
  constructor; cbn.
  - constructor.
  - intros ? [].
  - intros ? [].
  - intros i u c H. destruct i; discriminate H.
Qed.

End Registered.

Section Ledger.

Lemma getReferrerChain_members (d : db) (userId maxLevel : nat) (r : User.t) (l : nat) :
  In (r, l) (getReferrerChain d userId maxLevel) -> In r (users d).
Proof.
  intros H. apply In_nth_error in H as [i Hi]. unfold getReferrerChain in Hi.
  destruct (chain_loop_walk d maxLevel userId 0) as (_ & Hnth & _).
  destruct (Hnth i r l Hi) as [_ Hhd].
  destruct (referrer_rows d _) as [| r' rows] eqn:E; [discriminate |].
  injection Hhd as ->.
  assert (Hin : In r (referrer_rows d
                        (walked_from userId (chain_loop d maxLevel userId 0) i)))
    by (rewrite E; left; reflexivity).
  apply referrer_rows_In in Hin as (_ & _ & _ & Hr & _). exact Hr.
Qed.

Lemma spec_earnings_In (now depositId userId : nat) (amount : Q) (next_id : nat)
    (chain : list (User.t * nat)) (e : Earning.t) :
  In e (spec_earnings now depositId userId amount next_id chain) ->
  exists i referrer level,
    nth_error chain i = Some (referrer, level)
    /\ e = Earning.mk (next_id + i) (User.id referrer) userId depositId level
                      (spec_rate level) (amount * spec_rate level / 100)
                      pending now None.
Proof.
  intros H. apply In_nth_error in H as [i Hi].
  assert (Hlt : (i < List.length chain)%nat).
  { rewrite <- (spec_earnings_length now depositId userId amount next_id chain).
    apply nth_error_Some. rewrite Hi. discriminate. }
  destruct (nth_error chain i) as [[referrer level] |] eqn:Hc;
    [| apply nth_error_None in Hc; lia].
  exists i, referrer, level. split; [exact Hc |].
  rewrite (spec_earnings_nth now depositId userId amount chain next_id i
             referrer level Hc) in Hi.
  injection Hi as <-. reflexivity.
Qed.

Lemma db_step_all_anchored (d d' : db) (now : nat) :
  db_step d now d' -> all_anchored d -> all_anchored d'.
Proof.
  intros Hstep Hall.
  destruct Hstep as [| email code _ _ | email user _ _ | email user amount Hu _].
  - exact Hall.
  - intros e Hin. cbn [createUser snd referral_earnings] in Hin.
    destruct (Hall e Hin) as [Hl Hp Ha [r [Hr Hrid]] Hc].
    constructor; try assumption.
    exists r. split; [| exact Hrid]. cbn [createUser snd users].
    apply in_app_iff. left. exact Hr.
  - intros e Hin. cbn [credit_balance claim_earnings referral_earnings] in Hin.
    apply in_map_iff in Hin as (e0 & <- & Hin).
    destruct (Hall e0 Hin) as [Hl Hp Ha [r [Hr Hrid]] Hc].
    unfold claim_row. destruct (owed (User.id user) pending e0).
    + constructor; cbn [Earning.level Earning.percentage Earning.deposit_id
                        Earning.referred_user_id Earning.amount Earning.referrer_id
                        Earning.status Earning.claimed_at]; try assumption.
      * exists (credit_row (status_total d (User.id user) pending) (User.id user) r).
        split; [apply in_map; exact Hr | rewrite credit_row_id; exact Hrid].
      * exists now. reflexivity.
    + constructor; try assumption.
      exists (credit_row (status_total d (User.id user) pending) (User.id user) r).
      split; [apply in_map; exact Hr | rewrite credit_row_id; exact Hrid].
  - intros e Hin. cbn [referral_earnings] in Hin.
    apply in_app_iff in Hin as [Hin | Hin].
    + destruct (Hall e Hin) as [Hl Hp (dep & Hd & Ha) Hr Hc].
      constructor; try assumption.
      exists dep. split; [| exact Ha]. cbn [deposits]. apply in_app_iff. left. exact Hd.
    + apply spec_earnings_In in Hin as (i & referrer & level & Hi & ->).
      apply nth_error_In in Hi.
      constructor; cbn [Earning.level Earning.percentage Earning.deposit_id
                        Earning.referred_user_id Earning.amount Earning.referrer_id
                        Earning.status Earning.claimed_at users deposits].
      * apply (getReferrerChain_levels d (User.id user) 3 referrer level Hi).
      * reflexivity.
      * eexists. split; [apply in_app_iff; right; left; reflexivity |].
        repeat split.
      * exists referrer. split; [| reflexivity].
        apply (getReferrerChain_members d (User.id user) 3 referrer level Hi).
      * reflexivity.
Qed.

Lemma sum_amounts_app (l1 l2 : list Earning.t) :
  (sum_amounts (l1 ++ l2) == sum_amounts l1 + sum_amounts l2)%Q.
Proof.
  induction l1 as [| e l1 IH]; cbn [app sum_amounts fold_right].
  - fold (sum_amounts l2). lra.
  - fold (sum_amounts (l1 ++ l2)) (sum_amounts l1). lra.
Qed.

(** A claim moves the pending total of the referrer to the claimed one. *)
Lemma claim_moves_pending (now referrerId : nat) (l : list Earning.t) :
  (sum_amounts (filter (owed referrerId claimed) (map (claim_row now referrerId) l))
   == sum_amounts (filter (owed referrerId claimed) l)
      + sum_amounts (filter (owed referrerId pending) l))%Q.
Proof.
  induction l as [| e l IH]; cbn [map filter]; [cbn; lra |].
  destruct (owed referrerId pending e) eqn:Ep.
  - assert (Hc : owed referrerId claimed (claim_row now referrerId e) = true).
    { unfold claim_row. rewrite Ep. unfold owed in Ep |- *.
      apply andb_prop in Ep as [Er _]. cbn [Earning.referrer_id Earning.status].
      rewrite Er. reflexivity. }
    assert (Hn : owed referrerId claimed e = false).
    { unfold owed in Ep |- *. apply andb_prop in Ep as [_ Es].
      destruct (Earning.status e); [apply andb_false_r | discriminate Es]. }
    assert (Ha : Earning.amount (claim_row now referrerId e) = Earning.amount e).
    { unfold claim_row. rewrite Ep. reflexivity. }
    rewrite Hc, Hn. unfold sum_amounts in *. cbn [fold_right]. rewrite Ha. lra.
  - assert (Hf : claim_row now referrerId e = e) by (unfold claim_row; rewrite Ep; reflexivity).
    rewrite Hf. destruct (owed referrerId claimed e);
      unfold sum_amounts in *; cbn [fold_right]; lra.
Qed.

(** It leaves the rows of every other referrer as they are. *)
Lemma claim_keeps_others (now referrerId other : nat) (st : status) (l : list Earning.t) :
  other <> referrerId ->
  filter (owed other st) (map (claim_row now referrerId) l) = filter (owed other st) l.
Proof.
  intros Hne. induction l as [| e l IH]; cbn [map filter]; [reflexivity |].
  rewrite IH. destruct (owed referrerId pending e) eqn:Ep.
  - assert (H1 : owed other st (claim_row now referrerId e) = false).
    { unfold claim_row. rewrite Ep. unfold owed in Ep |- *.
      apply andb_prop in Ep as [Er _]. apply Nat.eqb_eq in Er.
      cbn [Earning.referrer_id].
      replace (Nat.eqb (Earning.referrer_id e) other) with false
        by (symmetry; apply Nat.eqb_neq; congruence).
      reflexivity. }
    assert (H2 : owed other st e = false).
    { unfold owed in Ep |- *. apply andb_prop in Ep as [Er _]. apply Nat.eqb_eq in Er.
      replace (Nat.eqb (Earning.referrer_id e) other) with false
        by (symmetry; apply Nat.eqb_neq; congruence).
      reflexivity. }
    rewrite H1, H2. reflexivity.
  - assert (Hf : claim_row now referrerId e = e)
      by (unfold claim_row; rewrite Ep; reflexivity).
    rewrite Hf. reflexivity.
Qed.

Lemma spec_earnings_pending (now depositId userId : nat) (amount : Q) (next_id : nat)
    (chain : list (User.t * nat)) (referrerId : nat) :
  filter (owed referrerId claimed)
         (spec_earnings now depositId userId amount next_id chain) = [].
Proof.
  revert next_id. induction chain as [| [r l] chain IH]; intros next_id;
    cbn [spec_earnings filter]; [reflexivity |].
  unfold owed at 1. cbn [Earning.status status_eqb]. rewrite andb_false_r. apply IH.
Qed.

Lemma db_step_ledger (d d' : db) (now : nat) :
  db_step d now d' -> ids_fresh d -> all_anchored d ->
  ledger_balanced d -> ledger_balanced d'.
Proof.
  intros Hstep Hids Hanch Hled.
  destruct Hstep as [| email code _ _ | email user _ _ | email user amount _ _].
  - exact Hled.
  - intros u Hin. cbn [createUser snd users] in Hin.
    unfold status_total. cbn [createUser snd referral_earnings].
    apply in_app_iff in Hin as [Hin | [<- | []]]; [exact (Hled u Hin) |].
    cbn [User.balance User.id].
    assert (E : filter (owed (users_seq d) claimed) (referral_earnings d) = []).
    { destruct (filter _ _) as [| e l] eqn:E; [reflexivity |].
      assert (He : In e (filter (owed (users_seq d) claimed) (referral_earnings d)))
        by (rewrite E; left; reflexivity).
      apply filter_In in He as [He Ho]. unfold owed in Ho.
      apply andb_prop in Ho as [Ho _]. apply Nat.eqb_eq in Ho.
      destruct (referrer_known d e (Hanch e He)) as (r & Hr & Hrid).
      pose proof (user_ids_below d Hids r Hr). lia. }
    rewrite E. reflexivity.
  - intros u Hin. cbn [credit_balance claim_earnings users] in Hin.
    apply in_map_iff in Hin as (u0 & <- & Hin).
    unfold status_total. cbn [credit_balance claim_earnings referral_earnings].
    rewrite credit_row_id. specialize (Hled u0 Hin). unfold status_total in Hled.
    unfold credit_row. destruct (Nat.eqb (User.id u0) (User.id user)) eqn:E.
    + apply Nat.eqb_eq in E. cbn [User.balance]. rewrite E in *.
      rewrite claim_moves_pending. unfold status_total. rewrite Hled. reflexivity.
    + apply Nat.eqb_neq in E. rewrite (claim_keeps_others _ _ _ _ _ E). exact Hled.
  - intros u Hin. cbn [users] in Hin. unfold status_total. cbn [referral_earnings].
    rewrite filter_app, spec_earnings_pending, app_nil_r. exact (Hled u Hin).
Qed.

Lemma reachable_consistent (d : db) : reachable d -> consistent d.
Proof.
  induction 1 as [| d now r _ [Hi Hu Ha Hl]].
  - constructor.
    + exact empty_ids_fresh.
    + exact empty_users_registered.
    + intros e [].
    + intros u [].
  - pose proof (handle_db_step d now r) as Hs. constructor.
    + exact (db_step_ids_fresh _ _ _ Hs Hi).
    + exact (db_step_users_registered _ _ _ Hs Hu).
    + exact (db_step_all_anchored _ _ _ Hs Ha).
    + exact (db_step_ledger _ _ _ Hs Hi Ha Hl).
Qed.

End Ledger.

(** ** The sample databases are reachable *)

Section SampleReachable.

Lemma reachable_run (rs : list (nat * request)) :
  forall d, reachable d ->
            reachable (fold_left (fun d' nr => handle d' (fst nr) (snd nr)) rs d).
Proof.
  induction rs as [| [now r] rs IH]; intros d H; cbn [fold_left]; [exact H |].
  apply IH. apply reachable_handle. exact H.
Qed.

Lemma sample_db3_reachable : reachable Sample.db3.
Proof.
  assert (E : fold_left (fun d' nr => handle d' (fst nr) (snd nr))
                [ (10%nat, PostRegister (Some "a@example.com") None);
                  (20%nat, PostRegister (Some "b@example.com") (Some Sample.codeA));
                  (30%nat, PostRegister (Some "c@example.com") (Some Sample.codeB)) ]
                empty_db = Sample.db3) by (vm_compute; reflexivity).
  rewrite <- E. apply reachable_run, reachable_empty.
Qed.

Lemma sample_db4_reachable : reachable Sample.db4.
Proof.
  assert (E : handle Sample.db3 40 (PostDeposit (Some "c@example.com") (Some 100%Q))
              = Sample.db4) by (vm_compute; reflexivity).
  rewrite <- E. apply reachable_handle, sample_db3_reachable.
Qed.


End SampleReachable.

(** ** Serial ids *)

(** X1: in every database the server can reach, the ids of the users, of the
    deposits and of the earnings are below the next serial value of their
    table and no id is used by two rows of a table. *)
Theorem reachable_ids_unique (d : db) :
  reachable d ->
  (forall u, In u (users d) -> (User.id u < users_seq d)%nat)
  /\ (forall x, In x (deposits d) -> (Deposit.id x < deposits_seq d)%nat)
  /\ (forall e, In e (referral_earnings d) -> (Earning.id e < earnings_seq d)%nat)
  /\ (forall i j u v, nth_error (users d) i = Some u -> nth_error (users d) j = Some v ->
        User.id u = User.id v -> i = j)
  /\ (forall i j x y, nth_error (deposits d) i = Some x ->
        nth_error (deposits d) j = Some y -> Deposit.id x = Deposit.id y -> i = j)
  /\ (forall i j e f, nth_error (referral_earnings d) i = Some e ->
        nth_error (referral_earnings d) j = Some f ->
        Earning.id e = Earning.id f -> i = j).
Proof.
  intros Hr. destruct (c_ids d (reachable_consistent d Hr)) as [Hu Hun Hd Hdn He Hen].
  assert (U : forall {A} (f : A -> nat) (l : list A), NoDup (map f l) ->
                forall i j a b, nth_error l i = Some a -> nth_error l j = Some b ->
                                f a = f b -> i = j).
  { intros A f l Hnd i j a b Hi Hj Hf.
    apply (proj1 (NoDup_nth_error (map f l)) Hnd).
    - rewrite length_map. apply nth_error_Some. rewrite Hi. discriminate.
    - rewrite !nth_error_map, Hi, Hj. cbn. f_equal. exact Hf. }
  repeat split; try assumption.
  - exact (U _ User.id _ Hun).
  - exact (U _ Deposit.id _ Hdn).
  - exact (U _ Earning.id _ Hen).
Qed.

Lemma reachable_ids_unique_witness :
  reachable Sample.db4
  /\ (forall e, In e (referral_earnings Sample.db4) ->
        (Earning.id e < earnings_seq Sample.db4)%nat).
Proof.
  split; [exact sample_db4_reachable |].
  exact (proj1 (proj2 (proj2 (reachable_ids_unique Sample.db4 sample_db4_reachable)))).
Defined.

(** ** Users: lookup by email, by code and by id *)

Section Lookup.

Lemma filter_none {A} (p : A -> bool) (l : list A) :
  (forall x, In x l -> p x = false) -> filter p l = [].
Proof.
  induction l as [| x l IH]; intros H; cbn [filter]; [reflexivity |].
  rewrite (H x (or_introl eq_refl)). apply IH. intros y Hy. apply H. right. exact Hy.
Qed.

Lemma filter_key_unique {A K} (key : A -> K) (eqb : K -> K -> bool)
    (eqb_eq : forall a b, eqb a b = true <-> a = b) (l : list A) (u : A) :
  NoDup (map key l) -> In u l -> filter (fun x => eqb (key x) (key u)) l = [u].
Proof.
  induction l as [| x l IH]; intros Hnd Hin; [destruct Hin |].
  cbn [map] in Hnd. inversion Hnd as [| k ks Hx Hnd']; subst. cbn [filter].
  destruct Hin as [-> | Hin].
  - rewrite (proj2 (eqb_eq _ _) eq_refl). f_equal.
    apply filter_none. intros y Hy.
    destruct (eqb (key y) (key u)) eqn:E; [| reflexivity].
    apply eqb_eq in E. exfalso. apply Hx. rewrite <- E. apply in_map. exact Hy.
  - destruct (eqb (key x) (key u)) eqn:E.
    + apply eqb_eq in E. exfalso. apply Hx. rewrite E. apply in_map. exact Hin.
    + apply IH; assumption.
Qed.

Lemma generateReferralCode_length (email : string) :
  String.length (generateReferralCode email) = 6%nat.
Proof.
  destruct (parseInt16_digest (Js.trim (Js.toLowerCase email))) as (h & Hp & _).
  unfold generateReferralCode. rewrite Hp.
  apply toString_six_digits.
  pose proof (Z.mod_pos_bound h 900000). lia.
Qed.

Lemma required_generateReferralCode (email : string) :
  required (Some (generateReferralCode email)) = Some (generateReferralCode email).
Proof.
  pose proof (generateReferralCode_length email) as H.
  destruct (generateReferralCode email); [discriminate H | reflexivity].
Qed.

Lemma user_by_id (d : db) (u : User.t) :
  reachable d -> In u (users d) ->
  filter (fun x => Nat.eqb (User.id x) (User.id u)) (users d) = [u].
Proof.
  intros Hr Hin.
  apply (filter_key_unique User.id Nat.eqb Nat.eqb_eq).
  - exact (user_ids_nodup d (c_ids d (reachable_consistent d Hr))).
  - exact Hin.
Qed.

End Lookup.

(** X2: in every reachable database emails are unique and stored in their
    lower-cased, trimmed form, and a user is found again by its email
    however the request writes it: [findUserByEmail] with any email that
    normalises to the stored one returns that very row. *)
Theorem reachable_email_lookup (d : db) (u : User.t) (email : string) :
  reachable d -> In u (users d) -> normalize email = User.email u ->
  findUserByEmail d email = Some u
  /\ findUserByEmail d (User.email u) = Some u
  /\ NoDup (map User.email (users d))
  /\ (forall v, In v (users d) -> User.email v = User.email u -> v = u).
Proof.
  intros Hr Hin Hn.
  destruct (c_users d (reachable_consistent d Hr)) as [Hnd Hnorm _ _].
  assert (F : forall e, normalize e = User.email u -> findUserByEmail d e = Some u).
  { intros e He. unfold findUserByEmail. rewrite He.
    rewrite (filter_key_unique User.email String.eqb String.eqb_eq _ u Hnd Hin).
    reflexivity. }
  split; [exact (F email Hn) |]. split; [exact (F _ (Hnorm u Hin)) |].
  split; [exact Hnd |].
  intros v Hv He.
  pose proof (filter_key_unique User.email String.eqb String.eqb_eq _ u Hnd Hin) as E.
  assert (Hf : In v (filter (fun x => String.eqb (User.email x) (User.email u)) (users d))).
  { apply filter_In. split; [exact Hv | apply String.eqb_eq; exact He]. }
  rewrite E in Hf. destruct Hf as [<- | []]. reflexivity.
Qed.

Lemma reachable_email_lookup_witness :
  findUserByEmail Sample.db4 "  B@Example.COM "
  = Some (User.mk 2 "b@example.com" Sample.codeB (Some Sample.codeA) 0 20).
Proof.
  refine (proj1 (reachable_email_lookup Sample.db4
                   (User.mk 2 "b@example.com" Sample.codeB (Some Sample.codeA) 0 20)
                   "  B@Example.COM " sample_db4_reachable _ _)).
  - right. left. reflexivity.
  - reflexivity.
Defined.

(** X3: in every reachable database the referral code of a user is the code
    [generateReferralCode] gives for its email, six characters long, and
    the inviter lookup with that code succeeds and answers with that code
    (and the masked email of the first user who has it). *)
Theorem reachable_code_lookup (d : db) (u : User.t) :
  reachable d -> In u (users d) ->
  User.referral_code u = generateReferralCode (User.email u)
  /\ String.length (User.referral_code u) = 6%nat
  /\ exists r,
       findUserByReferralCode d (User.referral_code u) = Some r
       /\ In r (users d)
       /\ User.referral_code r = User.referral_code u
       /\ api_inviter d (Some (User.referral_code u))
          = (Success (mkInviterData (Mask.replace (User.email r))
                                    (User.referral_code u) (User.created_at r)), d).
Proof.
  intros Hr Hin.
  destruct (c_users d (reachable_consistent d Hr)) as [_ _ Hcode _].
  pose proof (Hcode u Hin) as E.
  split; [exact E |]. split; [rewrite E; apply generateReferralCode_length |].
  destruct (findUserByReferralCode d (User.referral_code u)) as [r |] eqn:F.
  - pose proof (hd_error_filter_some _ _ _ F) as [Hr_in Hrc].
    apply String.eqb_eq in Hrc. exists r. repeat split; try assumption.
    unfold api_inviter. rewrite E at 1. rewrite required_generateReferralCode.
    rewrite <- E, F, Hrc. reflexivity.
  - exfalso. pose proof (hd_error_filter_none _ _ F u Hin) as Hf. cbn beta in Hf.
    rewrite String.eqb_refl in Hf. discriminate.
Qed.

Lemma reachable_code_lookup_witness :
  exists r,
    findUserByReferralCode Sample.db4 Sample.codeB = Some r
    /\ api_inviter Sample.db4 (Some Sample.codeB)
       = (Success (mkInviterData (Mask.replace (User.email r)) Sample.codeB
                                 (User.created_at r)), Sample.db4).
Proof.
  destruct (reachable_code_lookup Sample.db4
              (User.mk 2 "b@example.com" Sample.codeB (Some Sample.codeA) 0 20)
              sample_db4_reachable (or_intror (or_introl eq_refl)))
    as (_ & _ & r & Hf & _ & _ & Hi).
  exists r. split; [exact Hf | exact Hi].
Defined.

(** X4: in every reachable database a [referred_by_code] is the referral code
    of a row registered earlier, so the ancestor chain of a user is empty
    exactly when the user was registered without a referrer, and otherwise
    starts, at level 1, with a user who has that code. *)
Theorem reachable_referrer_exists (d : db) (u : User.t) (maxLevel : nat) :
  reachable d -> In u (users d) ->
  (forall i c, nth_error (users d) i = Some u -> User.referred_by_code u = Some c ->
     exists j r, (j < i)%nat /\ nth_error (users d) j = Some r
                 /\ User.referral_code r = c)
  /\ match User.referred_by_code u with
     | None => getReferrerChain d (User.id u) (S maxLevel) = []
     | Some c =>
         exists r rest,
           getReferrerChain d (User.id u) (S maxLevel) = (r, 1%nat) :: rest
           /\ In r (users d) /\ User.referral_code r = c
           /\ findUserByReferralCode d c = Some r
     end.
Proof.
  intros Hr Hin.
  destruct (c_users d (reachable_consistent d Hr)) as [_ _ _ Href].
  split; [intros i c; apply Href |].
  unfold getReferrerChain. cbn [chain_loop]. unfold referrer_rows.
  rewrite (user_by_id d u Hr Hin). cbn [flat_map]. rewrite app_nil_r.
  destruct (User.referred_by_code u) as [c |] eqn:Ec.
  - apply In_nth_error in Hin as [i Hi].
    destruct (Href i u c Hi Ec) as (j & r0 & _ & Hj & Hc0).
    apply nth_error_In in Hj.
    destruct (filter (refers_to (Some c)) (users d)) as [| r rows] eqn:F.
    + exfalso.
      assert (Hf : In r0 (filter (refers_to (Some c)) (users d))).
      { apply filter_In. split; [exact Hj |]. cbn. apply String.eqb_eq. congruence. }
      rewrite F in Hf. destruct Hf.
    + assert (Hf : In r (filter (refers_to (Some c)) (users d)))
        by (rewrite F; left; reflexivity).
      apply filter_In in Hf as [Hrin Hrc]. cbn in Hrc. apply String.eqb_eq in Hrc.
      exists r. eexists. split; [reflexivity |]. repeat split; try congruence.
      unfold findUserByReferralCode.
      replace (filter (fun x => String.eqb (User.referral_code x) c) (users d))
        with (filter (refers_to (Some c)) (users d)).
      * rewrite F. reflexivity.
      * apply filter_ext. intros x. cbn. apply String.eqb_sym.
  - replace (filter (refers_to None) (users d)) with (@nil User.t); [reflexivity |].
    symmetry. apply filter_none. intros x _. reflexivity.
Qed.

Lemma reachable_referrer_exists_witness :
  exists r rest,
    getReferrerChain Sample.db4 3 3 = (r, 1%nat) :: rest
    /\ In r (users Sample.db4) /\ User.referral_code r = Sample.codeB
    /\ findUserByReferralCode Sample.db4 Sample.codeB = Some r.
Proof.
  exact (proj2 (reachable_referrer_exists Sample.db4
                  (User.mk 3 "c@example.com" "618341" (Some Sample.codeB) 0 30) 2
                  sample_db4_reachable
                  (or_intror (or_intror (or_introl eq_refl))))).
Defined.

(** ** The ledger *)





Section Breakdown.


End Breakdown.



(** ** Replies and the database *)



Section Registration.

Lemma required_some (x : option string) (s : string) :
  required x = Some s -> x = Some s /\ s <> EmptyString.
Proof.
  destruct x as [t |]; [| discriminate]. cbn.
  destruct t; [discriminate |]. intros H. injection H as <-.
  split; [reflexivity | discriminate].
Qed.

Lemma findUserByEmail_normalize (d : db) (e e' : string) :
  normalize e' = normalize e -> findUserByEmail d e' = findUserByEmail d e.
Proof. unfold findUserByEmail. intros ->. reflexivity. Qed.

(** The row [createUser] adds is the one the next lookup finds. *)
Lemma findUserByEmail_created (d : db) (now : nat) (e e' : string)
    (code : option string) :
  findUserByEmail d e = None -> normalize e' = normalize e ->
  findUserByEmail (snd (createUser d now e code)) e'
  = Some (fst (createUser d now e code)).
Proof.
  intros Hnone Hn. unfold findUserByEmail. cbn [createUser snd fst users].
  rewrite filter_app, Hn.
  rewrite (filter_none _ (users d)) by (apply (hd_error_filter_none _ _ Hnone)).
  cbn [app filter User.email]. rewrite String.eqb_refl. reflexivity.
Qed.

End Registration.

(** X9: registering an email that is already registered, in any spelling that
    normalises to the same address and under any referral code, changes
    nothing and answers with the data of the first registration and
    [isNew] false: same id, same email, same code, same link. *)
Theorem api_register_twice (d : db) (now now' : nat) (e e' : string)
    (code code' : option string) :
  e <> EmptyString -> e' <> EmptyString -> normalize e' = normalize e ->
  let first := api_register d now (Some e) code in
  exists data,
    fst first = Success data
    /\ api_register (snd first) now' (Some e') code'
       = (Success (mkRegisterData (rg_id data) (rg_email data) (rg_referralCode data)
                                  (rg_referralLink data) false),
          snd first).
Proof.
  intros He He' Hn. cbv zeta. unfold api_register.
  assert (R : required (Some e) = Some e) by (destruct e; [contradiction | reflexivity]).
  assert (R' : required (Some e') = Some e') by (destruct e'; [contradiction | reflexivity]).
  rewrite R, R'.
  destruct (findUserByEmail d e) as [user |] eqn:F.
  - cbn [fst snd]. eexists. split; [reflexivity |].
    rewrite (findUserByEmail_normalize d e e' Hn), F. reflexivity.
  - set (c := match required code with
              | Some c0 => match findUserByReferralCode d c0 with
                           | Some _ => Some c0
                           | None => None
                           end
              | None => None
              end).
    pose proof (findUserByEmail_created d now e e' c F Hn) as F'.
    destruct (createUser d now e c) as [row d1] eqn:C. cbn [fst snd] in *.
    eexists. split; [reflexivity |]. rewrite F'. reflexivity.
Qed.

Lemma api_register_twice_witness :
  let first := api_register Sample.db1 20 (Some "b@example.com") (Some Sample.codeA) in
  exists data,
    fst first = Success data
    /\ api_register (snd first) 99 (Some " B@Example.com") None
       = (Success (mkRegisterData (rg_id data) (rg_email data) (rg_referralCode data)
                                  (rg_referralLink data) false),
          snd first).
Proof.
  assert (N : normalize " B@Example.com" = normalize "b@example.com")
    by (vm_compute; reflexivity).
  assert (E1 : "b@example.com" <> EmptyString) by discriminate.
  assert (E2 : " B@Example.com" <> EmptyString) by discriminate.
  exact (api_register_twice Sample.db1 20 99 "b@example.com" " B@Example.com"
           (Some Sample.codeA) None E1 E2 N).
Defined.

(** X10: the referral request creates the user of an email that is not there
    and only then: after it the user exists, a second referral request
    (in any spelling of the email) answers the same and changes nothing,
    and a registration of that email answers [isNew] false with the same
    code. *)
Theorem api_referral_get_or_create (d : db) (now now' : nat) (e e' : string)
    (code' : option string) :
  e <> EmptyString -> e' <> EmptyString -> normalize e' = normalize e ->
  let first := api_referral d now (Some e) in
  exists user,
    findUserByEmail (snd first) e' = Some user
    /\ fst first
       = Success (mkReferralData (User.referral_code user)
                                 (referralLink (User.referral_code user))
                                 (User.email user))
    /\ (findUserByEmail d e = Some user -> snd first = d)
    /\ (findUserByEmail d e = None ->
        users (snd first) = (users d ++ [user])%list
        /\ user = User.mk (users_seq d) (normalize e) (generateReferralCode e) None 0 now)
    /\ api_referral (snd first) now' (Some e') = (fst first, snd first)
    /\ api_register (snd first) now' (Some e') code'
       = (Success (register_reply user false), snd first).
Proof.
  intros He He' Hn. cbv zeta. unfold api_referral, api_register.
  assert (R : required (Some e) = Some e) by (destruct e; [contradiction | reflexivity]).
  assert (R' : required (Some e') = Some e') by (destruct e'; [contradiction | reflexivity]).
  rewrite R, R'.
  destruct (findUserByEmail d e) as [user |] eqn:F.
  - cbn [fst snd]. exists user.
    rewrite (findUserByEmail_normalize d e e' Hn), F.
    repeat split; try reflexivity; discriminate.
  - pose proof (findUserByEmail_created d now e e' None F Hn) as F'.
    cbn [createUser fst snd] in F' |- *. rewrite F'.
    eexists. split; [reflexivity |]. repeat split; try reflexivity; discriminate.
Qed.

Lemma api_referral_get_or_create_witness :
  let first := api_referral Sample.db3 40 (Some "New@example.com ") in
  exists user,
    findUserByEmail (snd first) "new@example.com" = Some user
    /\ api_register (snd first) 41 (Some "new@example.com") (Some Sample.codeA)
       = (Success (register_reply user false), snd first).
Proof.
  assert (N : normalize "new@example.com" = normalize "New@example.com ")
    by (vm_compute; reflexivity).
  assert (E1 : "New@example.com " <> EmptyString) by discriminate.
  assert (E2 : "new@example.com" <> EmptyString) by discriminate.
  pose proof (api_referral_get_or_create Sample.db3 40 41 "New@example.com "
                "new@example.com" (Some Sample.codeA) E1 E2 N) as H.
  cbv zeta in H |- *. destruct H as (user & Hf & _ & _ & _ & _ & Hr).
  exists user. split; [exact Hf | exact Hr].
Defined.

(** ** Claims and the balance reply *)

Section ClaimTotals.



End ClaimTotals.



(** ** The size of an accrual *)

Section AccrualTotal.


End AccrualTotal.




(** ** Normalised emails *)

Section NormalForm.

Lemma all_chars_trimStart (p : ascii -> bool) (s : string) :
  Mask.all_chars p s = true -> Mask.all_chars p (Js.trimStart s) = true.
Proof.
  induction s as [| c s IH]; cbn [Js.trimStart Mask.all_chars]; [reflexivity |].
  intros H. destruct (Js.is_space c); [| exact H].
  apply andb_prop in H as [_ H]. exact (IH H).
Qed.

Lemma all_chars_trimEnd (p : ascii -> bool) (s : string) :
  Mask.all_chars p s = true -> Mask.all_chars p (Js.trimEnd s) = true.
Proof.
  induction s as [| c s IH]; cbn [Js.trimEnd Mask.all_chars]; [reflexivity |].
  intros H. apply andb_prop in H as [Hc H]. specialize (IH H).
  destruct (Js.trimEnd s) as [| c' t].
  - destruct (Js.is_space c); cbn [Mask.all_chars]; [reflexivity |].
    rewrite Hc. reflexivity.
  - cbn [Mask.all_chars] in IH |- *. rewrite Hc. exact IH.
Qed.

Lemma toLowerCase_no_upper (s : string) :
  Mask.all_chars (fun c => negb (is_upper c)) (Js.toLowerCase s) = true.
Proof.
  induction s as [| c s IH]; cbn [Js.toLowerCase Mask.all_chars]; [reflexivity |].
  rewrite IH, andb_true_r. destruct c as [[] [] [] [] [] [] [] []]; reflexivity.
Qed.

End NormalForm.

(** X13: the normal form of an email, lower case then trimmed, is stable:
    normalising it again changes nothing, it has no upper-case letter and
    no white space at either end, and neither the referral code nor the
    lookup by email tells an email from its normal form. *)
Theorem normalize_stable (email : string) :
  normalize (normalize email) = normalize email
  /\ Mask.all_chars (fun c => negb (is_upper c)) (normalize email) = true
  /\ match normalize email with
     | String c _ => Js.is_space c = false
     | EmptyString => True
     end
  /\ match last_char (normalize email) with
     | Some c => Js.is_space c = false
     | None => normalize email = EmptyString
     end
  /\ generateReferralCode (normalize email) = generateReferralCode email
  /\ (forall d, findUserByEmail d (normalize email) = findUserByEmail d email).
Proof.
  split; [apply normalize_idem |].
  split; [apply all_chars_trimEnd, all_chars_trimStart, toLowerCase_no_upper |].
  split.
  { unfold normalize, Js.trim. rewrite <- trimStart_trimEnd_trimStart.
    apply trimStart_head. }
  split; [apply trimEnd_last |].
  split; [apply generateReferralCode_normalize |].
  intros d. apply findUserByEmail_normalize. apply normalize_idem.
Qed.

(** ** Masking of ordinary emails *)

Lemma replace_long_local_part_witness :
  Mask.replace "johndoe@example.com" = "jo***@example.com".
Proof.
  apply (replace_long_local_part "j" "o" "hndoe" "example.com"); reflexivity.
Defined.

(** ** The earnings history *)

Section History.

Lemma insert_newest_In (r x : Earning.t * string) (l : list (Earning.t * string)) :
  In x (insert_newest r l) <-> x = r \/ In x l.
Proof.
  induction l as [| y l IH]; cbn [insert_newest].
  - cbn. intuition congruence.
  - destruct (Earning.created_at (fst y) <? Earning.created_at (fst r))%nat.
    + cbn. intuition congruence.
    + cbn [In]. rewrite IH. intuition congruence.
Qed.

Lemma insert_newest_sorted (r : Earning.t * string) (l : list (Earning.t * string)) :
  newest_first (row_times l) -> newest_first (row_times (insert_newest r l)).
Proof.
  induction l as [| y l IH]; cbn [insert_newest row_times map newest_first].
  - intros _. split; [intros t [] | exact I].
  - intros [Hy Hl].
    destruct (Nat.ltb_spec (Earning.created_at (fst y)) (Earning.created_at (fst r)))
      as [Hlt | Hge]; cbn [row_times map newest_first].
    + split; [| split; assumption].
      intros t [<- | Ht]; [lia |]. specialize (Hy t Ht). lia.
    + split; [| apply IH; exact Hl].
      intros t Ht. apply in_map_iff in Ht as (x & <- & Hx).
      apply insert_newest_In in Hx as [-> | Hx]; [lia |].
      apply Hy. apply in_map_iff. exists x. split; [reflexivity | exact Hx].
Qed.

Lemma sorted_rows (l : list (Earning.t * string)) :
  newest_first (row_times (fold_right insert_newest [] l))
  /\ (forall x, In x (fold_right insert_newest [] l) <-> In x l).
Proof.
  induction l as [| r l [IHs IHi]]; cbn [fold_right].
  - split; [exact I | intros x; reflexivity].
  - split; [apply insert_newest_sorted; exact IHs |].
    intros x. rewrite insert_newest_In, IHi. cbn. intuition congruence.
Qed.

Lemma newest_first_firstn (n : nat) (l : list nat) :
  newest_first l -> newest_first (firstn n l).
Proof.
  revert l. induction n as [| n IH]; intros [| t l]; cbn [firstn newest_first];
    try (intros; exact I).
  intros [Ht Hl]. split; [| apply IH; exact Hl].
  intros t' Ht'. apply Ht. revert Ht'. clear.
  revert l. induction n as [| n IH]; intros [| x l]; cbn [firstn In]; try tauto.
  intros [-> | H]; [left; reflexivity | right; apply IH; exact H].
Qed.

Lemma firstn_In {A} (n : nat) (l : list A) (x : A) : In x (firstn n l) -> In x l.
Proof.
  revert l. induction n as [| n IH]; intros [| y l]; cbn [firstn In]; try tauto.
  intros [-> | H]; [left; reflexivity | right; apply IH; exact H].
Qed.

End History.

(** X15: the history reply holds at most 50 entries, newest first; every entry
    is an earning row of the user who asks, with the masked email of the
    user whose deposit earned it and the amount of the row. *)
Theorem api_earnings_history_newest_first (d : db) (email : option string)
    (entries : list history_entry) :
  fst (api_earnings_history d email) = Success entries ->
  (List.length entries <= 50)%nat
  /\ newest_first (map he_createdAt entries)
  /\ exists e0 user,
       required email = Some e0 /\ findUserByEmail d e0 = Some user
       /\ forall x, In x entries ->
            exists e u,
              In e (referral_earnings d) /\ In u (users d)
              /\ Earning.referrer_id e = User.id user
              /\ User.id u = Earning.referred_user_id e
              /\ x = mkHistoryEntry (Earning.level e) (Earning.percentage e)
                       (Js.Fin (Earning.amount e)) (Earning.status e)
                       (Mask.replace (User.email u)) (Earning.created_at e)
                       (Earning.claimed_at e).
Proof.
  unfold api_earnings_history.
  destruct (required email) as [e0 |]; [| discriminate].
  destruct (findUserByEmail d e0) as [user |] eqn:F; [| discriminate].
  cbn [fst]. intros H. injection H as <-. unfold history_rows.
  match goal with
  | |- context [fold_right insert_newest [] ?j] => set (joined := j)
  end.
  destruct (sorted_rows joined) as [Hs Hi].
  split; [rewrite length_map; apply firstn_le_length |].
  split.
  - rewrite map_map. cbn [he_createdAt].
    change (map (fun r => Earning.created_at (fst r))
                (firstn 50 (fold_right insert_newest [] joined)))
      with (row_times (firstn 50 (fold_right insert_newest [] joined))).
    unfold row_times. rewrite <- firstn_map. apply newest_first_firstn. exact Hs.
  - exists e0, user. split; [reflexivity |]. split; [exact F |].
    intros x Hx. apply in_map_iff in Hx as ([e mail] & <- & Hr).
    apply firstn_In, Hi in Hr. unfold joined in Hr.
    apply in_flat_map in Hr as (re & Hre & Hr).
    apply filter_In in Hre as [Hre Hid]. apply Nat.eqb_eq in Hid.
    apply in_map_iff in Hr as (u & Hp & Hu). injection Hp as <- <-.
    apply filter_In in Hu as [Hu Huid]. apply Nat.eqb_eq in Huid.
    exists re, u. cbn [fst snd]. repeat split; try assumption. symmetry. exact Huid.
Qed.

Lemma api_earnings_history_newest_first_witness :
  newest_first
    (map he_createdAt
       [mkHistoryEntry 1 16 (Js.Fin (1600 # 100)) pending "c@example.com" 40 None]).
Proof.
  exact (proj1 (proj2 (api_earnings_history_newest_first Sample.db4
                         (Some "b@example.com")
                         [mkHistoryEntry 1 16 (Js.Fin (1600 # 100)) pending
                                         "c@example.com" 40 None]
                         eq_refl))).
Defined.

(** ** From a registration under a code to the inviter's earning *)

Section InviterEarning.



End InviterEarning.



(** ** Ancestors and teams *)

Section Ancestors.

Lemma hd_error_filter_first {A} (p : A -> bool) (l : list A) (u : A) :
  hd_error (filter p l) = Some u ->
  exists q, nth_error l q = Some u /\ p u = true
            /\ forall j x, nth_error l j = Some x -> p x = true -> (q <= j)%nat.
Proof.
  induction l as [| y l IH]; cbn [filter]; [discriminate |].
  destruct (p y) eqn:Ey.
  - cbn. intros H. injection H as ->. exists 0%nat.
    repeat split; [exact Ey | intros; lia].
  - intros H. destruct (IH H) as (q & Hq & Hp & Hmin). exists (S q).
    repeat split; [exact Hq | exact Hp |].
    intros [| j] x Hj Hx.
    + cbn in Hj. injection Hj as ->. congruence.
    + specialize (Hmin j x Hj Hx). lia.
Qed.

Lemma parent_rows (d : db) (v : User.t) :
  reachable d -> In v (users d) ->
  referrer_rows d (User.id v) = filter (refers_to (User.referred_by_code v)) (users d).
Proof.
  intros Hr Hin. unfold referrer_rows. rewrite (user_by_id d v Hr Hin).
  cbn [flat_map]. apply app_nil_r.
Qed.

(** The direct referrer of a row was registered before it, has the code
    the row was registered under, and counts the row among its direct
    referrals. *)
Lemma parent_earlier (d : db) (p : nat) (v u : User.t) :
  reachable d -> nth_error (users d) p = Some v -> parent d (User.id v) = Some u ->
  (exists q, (q < p)%nat /\ nth_error (users d) q = Some u)
  /\ User.referred_by_code v = Some (User.referral_code u)
  /\ In v (referrals_of d u).
Proof.
  intros Hr Hp Hpar. pose proof (nth_error_In _ _ Hp) as Hin.
  unfold parent in Hpar. rewrite (parent_rows d v Hr Hin) in Hpar.
  destruct (hd_error_filter_first _ _ _ Hpar) as (q & Hq & Hpu & Hmin).
  destruct (User.referred_by_code v) as [c |] eqn:Ec; [| discriminate Hpu].
  cbn in Hpu. apply String.eqb_eq in Hpu. subst c.
  destruct (referrers_earlier d (c_users d (reachable_consistent d Hr)) p v _ Hp Ec)
    as (j & r & Hj & Hrj & Hrc).
  assert (Hle : (q <= j)%nat).
  { apply (Hmin j r Hrj). cbn. apply String.eqb_eq. congruence. }
  split; [exists q; split; [lia | exact Hq] |]. split; [reflexivity |].
  unfold referrals_of. apply referred_by_In. split; assumption.
Qed.

(** Every entry of a chain is the parent of the one before it. *)
Lemma chain_parents (d : db) (remaining : nat) :
  forall userId level u l rest,
    chain_loop d remaining userId level = (u, l) :: rest ->
    parent d userId = Some u /\ l = S level
    /\ exists remaining', rest = chain_loop d remaining' (User.id u) (S level).
Proof.
  destruct remaining as [| n]; intros userId level u l rest; cbn [chain_loop];
    [discriminate |].
  unfold parent. destruct (referrer_rows d userId) as [| row rows]; [discriminate |].
  intros H. injection H as -> <- <-. repeat split. exists n. reflexivity.
Qed.


Lemma getTeamByLevel_of_user (d : db) (u : User.t) :
  reachable d -> In u (users d) ->
  getTeamByLevel d (User.id u)
  = mkTeam (referrals_of d u)
           (flat_map (referrals_of d) (referrals_of d u))
           (flat_map (referrals_of d) (flat_map (referrals_of d) (referrals_of d u))).
Proof.
  intros Hr Hin. unfold getTeamByLevel. rewrite (user_by_id d u Hr Hin).
  rewrite team_l1_fold. reflexivity.
Qed.

End Ancestors.



(** X18: in a reachable database the team view agrees with the chain view: a
    user whose chain holds [u] at level [k] is a member of level [k] of
    the team of [u], for each of the three levels. *)
Theorem ancestor_has_descendant_in_team (d : db) (v u : User.t) (k : nat) :
  reachable d -> In v (users d) ->
  In (u, k) (getReferrerChain d (User.id v) 3) ->
  In v (team_level (getTeamByLevel d (User.id u)) k).
Proof.
  intros Hr Hin Hk. apply In_nth_error in Hin as [p Hp].
  unfold getReferrerChain in Hk.
  assert (Hmem : In u (users d))
    by (apply (getReferrerChain_members d (User.id v) 3 u k Hk)).
  rewrite (getTeamByLevel_of_user d u Hr Hmem).
  destruct (chain_loop d 3 (User.id v) 0) as [| [u1 l1] rest1] eqn:E1;
    [destruct Hk |].
  destruct (chain_parents d 3 _ _ _ _ _ E1) as (P1 & -> & n1 & ->).
  destruct (parent_earlier d p v u1 Hr Hp P1) as ((q1 & _ & Hu1) & _ & Hv1).
  destruct Hk as [Hk | Hk].
  { injection Hk as <- <-. exact Hv1. }
  destruct (chain_loop d n1 (User.id u1) 1) as [| [u2 l2] rest2] eqn:E2;
    [destruct Hk |].
  destruct (chain_parents d n1 _ _ _ _ _ E2) as (P2 & -> & n2 & ->).
  destruct (parent_earlier d q1 u1 u2 Hr Hu1 P2) as ((q2 & _ & Hu2) & _ & Hv2).
  destruct Hk as [Hk | Hk].
  { injection Hk as <- <-. cbn [team_level level2].
    apply in_flat_map. exists u1. split; assumption. }
  destruct (chain_loop d n2 (User.id u2) 2) as [| [u3 l3] rest3] eqn:E3;
    [destruct Hk |].
  destruct (chain_parents d n2 _ _ _ _ _ E3) as (P3 & -> & n3 & ->).
  destruct (parent_earlier d q2 u2 u3 Hr Hu2 P3) as (_ & _ & Hv3).
  destruct Hk as [Hk | Hk].
  { injection Hk as <- <-. cbn [team_level level3].
    apply in_flat_map. exists u1. split; [| exact Hv1].
    apply in_flat_map. exists u2. split; assumption. }
  exfalso.
  assert (Hlen : (List.length (chain_loop d 3 (User.id v) 0) <= 3)%nat)
    by (apply (chain_loop_walk d 3 (User.id v) 0)).
  rewrite E1 in Hlen. cbn [List.length] in Hlen.
  destruct (chain_loop d n3 (User.id u3) 3); [destruct Hk | cbn in Hlen; lia].
Qed.

Lemma ancestor_has_descendant_in_team_witness :
  In (User.mk 3 "c@example.com" "618341" (Some Sample.codeB) 0 30)
     (team_level (getTeamByLevel Sample.db4 1) 2).
Proof.
  refine (ancestor_has_descendant_in_team Sample.db4
            (User.mk 3 "c@example.com" "618341" (Some Sample.codeB) 0 30)
            (User.mk 1 "a@example.com" Sample.codeA None 0 10) 2
            sample_db4_reachable _ _).
  - right. right. left. reflexivity.
  - right. left. reflexivity.
Defined.

(** ** Stored deposits *)

Section Deposits.



End Deposits.


